(** * Eigen: shape traits, the assignment engine and the conjugate gradient solver

    A shallow embedding of
    - [Eigen/src/Core/MatrixBase.h]        (shape traits and shape queries),
    - [Eigen/src/Core/OperatorEquals.h]    (the unrollers and [lazyAssign]),
    - [unsupported/Eigen/src/IterativeSolvers/ConjugateGradient.h]
      (the algorithm, the solver object and its deferred results).

    C++ [int] values are integers of [Z]; signed overflow has no defined
    behaviour in C++ and is not modelled.  Coefficients of a destination are
    a finite map from (row, column) to scalars. *)

From Stdlib Require Import ZArith Bool Lia.
From Stdlib Require Import Floats.PrimFloat.
From stdpp Require Import base tactics option list gmap.

Local Open Scope Z_scope.

(* ===================================================================== *)
(** * Part I: definitions *)
(* ===================================================================== *)

(** ** Outcomes of a call *)

(** The failures of the specification's taxonomy.  A failed [eigen_assert] /
    [ei_assert] on the initialisation flag is [NotInitialized], one on shapes
    is [DimensionMismatch]. *)
Inductive Error : Set :=
| NotInitialized
| DimensionMismatch.

(** A call returns, fails an assertion, or has no defined behaviour (a null
    pointer is dereferenced, a template recursion never reaches one of its
    specialisations, or the statement reached is ill-formed). *)
Inductive outcome (A : Type) : Type :=
| Returns (a : A)
| Fails (e : Error)
| Undefined.

Arguments Returns {A} a.
Arguments Fails {A} e.
Arguments Undefined {A}.

Definition obind {A B : Type} (o : outcome A) (k : A -> outcome B) : outcome B :=
  match o with
  | Returns a => k a
  | Fails e => Fails e
  | Undefined => Undefined
  end.

#[export] Instance outcome_bind : MBind outcome := fun A B k o => obind o k.
#[export] Instance outcome_ret : MRet outcome := fun A a => Returns a.

Definition ei_assert (cond : bool) (e : Error) : outcome unit :=
  if cond then Returns tt else Fails e.

(** ** Constants of the library *)

(** Modelled from the spec: the two constants [lazyAssign] and the traits use
    but whose declarations (util/Constants.h, util/Macros.h) are not part of
    the listing: the sentinel of an extent unknown until runtime, and the
    fixed unrolling budget. *)
Class Constants : Set := {
  Dynamic : Z;
  EIGEN_UNROLLING_LIMIT : Z
}.

(** [for (int k = 0; k < n; k++) body(k)] over a state; [n] does not change
    while the loop runs. *)
Definition for_loop {S : Type} (n : Z) (body : Z -> S -> S) (s : S) : S :=
  foldl (fun s k => body k s) s (seqZ 0 n).

(** ** Shape traits (MatrixBase.h) *)

Section ShapeTraits.
Context `{Constants}.

(** What a [Derived] type provides at compile time. *)
Record Traits : Set := {
  RowsAtCompileTime : Z;
  ColsAtCompileTime : Z;
  MaxRowsAtCompileTime : Z;
  MaxColsAtCompileTime : Z;
  CoeffReadCost : Z
}.

Definition SizeAtCompileTime (t : Traits) : Z :=
  if (RowsAtCompileTime t =? Dynamic) || (ColsAtCompileTime t =? Dynamic)
  then Dynamic
  else RowsAtCompileTime t * ColsAtCompileTime t.

Definition MaxSizeAtCompileTime (t : Traits) : Z :=
  if (MaxRowsAtCompileTime t =? Dynamic) || (MaxColsAtCompileTime t =? Dynamic)
  then Dynamic
  else MaxRowsAtCompileTime t * MaxColsAtCompileTime t.

Definition IsVectorAtCompileTime (t : Traits) : bool :=
  (RowsAtCompileTime t =? 1) || (ColsAtCompileTime t =? 1).

(** [MatrixBase<Derived>]: the derived object supplies its traits and its
    runtime extents, the base class derives the rest. *)
Class MatrixBase (Derived : Type) : Type := {
  traits : Derived -> Traits;
  _rows : Derived -> Z;
  _cols : Derived -> Z
}.

Definition rows `{MatrixBase Derived} (m : Derived) : Z := _rows m.
Definition cols `{MatrixBase Derived} (m : Derived) : Z := _cols m.
Definition size `{MatrixBase Derived} (m : Derived) : Z := rows m * cols m.
Definition isVector `{MatrixBase Derived} (m : Derived) : bool :=
  (rows m =? 1) || (cols m =? 1).

(** The runtime extents agree with the compile-time ones wherever those are
    known, and are not negative. *)
Definition well_shaped `{MatrixBase Derived} (m : Derived) : bool :=
  ((RowsAtCompileTime (traits m) =? Dynamic) || (rows m =? RowsAtCompileTime (traits m)))
  && ((ColsAtCompileTime (traits m) =? Dynamic) || (cols m =? ColsAtCompileTime (traits m)))
  && (0 <=? rows m) && (0 <=? cols m).
End ShapeTraits.

(** ** The assignment engine (OperatorEquals.h) *)

Section Assignment.
Context `{Constants} {Scalar : Type}.

(** A source expression [OtherDerived]: read access by (row, column). *)
Record Expr : Type := {
  expr_traits : Traits;
  expr_rows : Z;
  expr_cols : Z;
  expr_coeff : Z -> Z -> Scalar
}.

(** A destination container [Derived]: its coefficients by (row, column). *)
Record Matrix : Type := {
  m_traits : Traits;
  m_rows : Z;
  m_cols : Z;
  m_storage : gmap (Z * Z) Scalar
}.

#[export] Instance Expr_MatrixBase : MatrixBase Expr :=
  {| traits := expr_traits; _rows := expr_rows; _cols := expr_cols |}.

#[export] Instance Matrix_MatrixBase : MatrixBase Matrix :=
  {| traits := m_traits; _rows := m_rows; _cols := m_cols |}.

Definition coeff (src : Expr) (row col : Z) : Scalar := expr_coeff src row col.

(** [dst.coeffRef(row, col) = v] *)
Definition coeffRef (dst : Matrix) (row col : Z) (v : Scalar) : Matrix :=
  {| m_traits := m_traits dst; m_rows := m_rows dst; m_cols := m_cols dst;
     m_storage := <[(row, col) := v]> (m_storage dst) |}.

(** Modelled from the spec: the accessors by one index, declared in
    MatrixBase.h and defined outside the listing; linear indexing is valid on
    vectors only, a row vector is indexed along its row and a column vector
    along its column. *)
Definition index_position (t : Traits) (index : Z) : Z * Z :=
  if RowsAtCompileTime t =? 1 then (0, index) else (index, 0).

Definition coeff_at (src : Expr) (index : Z) : Scalar :=
  coeff src (index_position (traits src) index).1 (index_position (traits src) index).2.

Definition coeffRef_at (dst : Matrix) (index : Z) (v : Scalar) : Matrix :=
  coeffRef dst (index_position (traits dst) index).1 (index_position (traits dst) index).2 v.

(** [ei_matrix_operator_equals_unroller<Derived1, Derived2, UnrollCount>::run].
    [depth] bounds the chain of template instantiations; the specialisations
    for [Dynamic], 0 and 1 end the chain. *)
Fixpoint ei_matrix_operator_equals_unroller_run
    (depth : nat) (UnrollCount : Z) (dst : Matrix) (src : Expr) : outcome Matrix :=
  match depth with
  | O => Undefined
  | S depth' =>
      if UnrollCount =? Dynamic then Returns dst
      else if UnrollCount =? 0 then Returns dst
      else if UnrollCount =? 1 then Returns (coeffRef dst 0 0 (coeff src 0 0))
      else
        let col := Z.quot (UnrollCount - 1) (RowsAtCompileTime (traits dst)) in
        let row := Z.rem (UnrollCount - 1) (RowsAtCompileTime (traits dst)) in
        dst' ← ei_matrix_operator_equals_unroller_run depth' (UnrollCount - 1) dst src;
        Returns (coeffRef dst' row col (coeff src row col))
  end.

(** [ei_vector_operator_equals_unroller<Derived1, Derived2, UnrollCount>::run] *)
Fixpoint ei_vector_operator_equals_unroller_run
    (depth : nat) (UnrollCount : Z) (dst : Matrix) (src : Expr) : outcome Matrix :=
  match depth with
  | O => Undefined
  | S depth' =>
      if UnrollCount =? Dynamic then Returns dst
      else if UnrollCount =? 0 then Returns dst
      else if UnrollCount =? 1 then Returns (coeffRef_at dst 0 (coeff_at src 0))
      else
        let index := UnrollCount - 1 in
        dst' ← ei_vector_operator_equals_unroller_run depth' (UnrollCount - 1) dst src;
        Returns (coeffRef_at dst' index (coeff_at src index))
  end.

(** The depth [lazyAssign] instantiates to: a chain that starts at
    [UnrollCount] reaches a specialisation within [UnrollCount] steps, or
    never does. *)
Definition instantiation_depth (UnrollCount : Z) : nat := S (Z.to_nat UnrollCount).

Definition ei_matrix_operator_equals_unroller (UnrollCount : Z) : Matrix -> Expr -> outcome Matrix :=
  ei_matrix_operator_equals_unroller_run (instantiation_depth UnrollCount) UnrollCount.

Definition ei_vector_operator_equals_unroller (UnrollCount : Z) : Matrix -> Expr -> outcome Matrix :=
  ei_vector_operator_equals_unroller_run (instantiation_depth UnrollCount) UnrollCount.

(** The three loops of [lazyAssign]. *)
Definition vector_loop (dst : Matrix) (other : Expr) : Matrix :=
  for_loop (size dst) (fun i d => coeffRef_at d i (coeff_at other i)) dst.

Definition column_major_loop (dst : Matrix) (other : Expr) : Matrix :=
  for_loop (cols dst) (fun j d =>
    for_loop (rows d) (fun i d => coeffRef d i j (coeff other i j)) d) dst.

Definition row_major_loop (dst : Matrix) (other : Expr) : Matrix :=
  for_loop (rows dst) (fun i d =>
    for_loop (cols d) (fun j d => coeffRef d i j (coeff other i j)) d) dst.

(** [const bool unroll = SizeAtCompileTime * OtherDerived::CoeffReadCost <= EIGEN_UNROLLING_LIMIT] *)
Definition unroll (dst : Matrix) (other : Expr) : bool :=
  SizeAtCompileTime (traits dst) * CoeffReadCost (traits other) <=? EIGEN_UNROLLING_LIMIT.

(** The traversal chosen on the looped matrix path:
    [ColsAtCompileTime == Dynamic || RowsAtCompileTime != Dynamic]. *)
Definition column_major_traversal (t : Traits) : bool :=
  (ColsAtCompileTime t =? Dynamic) || negb (RowsAtCompileTime t =? Dynamic).

Definition matrix_loop (dst : Matrix) (other : Expr) : Matrix :=
  if column_major_traversal (traits dst)
  then column_major_loop dst other
  else row_major_loop dst other.

(** [MatrixBase<Derived>::lazyAssign(other)], returning [derived()]. *)
Definition lazyAssign (dst : Matrix) (other : Expr) : outcome Matrix :=
  if IsVectorAtCompileTime (traits dst) && IsVectorAtCompileTime (traits other)
  then
    ei_assert (size dst =? size other) DimensionMismatch;;
    if unroll dst other
    then ei_vector_operator_equals_unroller
           (if unroll dst other then SizeAtCompileTime (traits dst) else Dynamic) dst other
    else Returns (vector_loop dst other)
  else
    ei_assert ((rows dst =? rows other) && (cols dst =? cols other)) DimensionMismatch;;
    if unroll dst other
    then ei_matrix_operator_equals_unroller
           (if unroll dst other then SizeAtCompileTime (traits dst) else Dynamic) dst other
    else Returns (matrix_loop dst other).

(** What a source holds at a position of the destination, on the matrix
    paths and on the vector paths. *)
Definition reads (other : Expr) (q : Z * Z) : Scalar := coeff other q.1 q.2.

Definition reads_at (other : Expr) (q : Z * Z) : Scalar := coeff_at other (q.1 + q.2).

(** The positions each path writes, in the order it writes them. *)
Definition column_major_positions (r c : Z) : list (Z * Z) :=
  j ← seqZ 0 c; (fun i => (i, j)) <$> seqZ 0 r.

Definition row_major_positions (r c : Z) : list (Z * Z) :=
  i ← seqZ 0 r; (fun j => (i, j)) <$> seqZ 0 c.

Definition unrolled_position (t : Traits) (idx : Z) : Z * Z :=
  (Z.rem idx (RowsAtCompileTime t), Z.quot idx (RowsAtCompileTime t)).

(** The coefficient of a destination, when it holds one. *)
Definition stored (dst : Matrix) (row col : Z) : option Scalar := m_storage dst !! (row, col).

(** Two destinations of the same extents that hold the same coefficient at
    every position within these extents. *)
Definition same_contents (d1 d2 : Matrix) : Prop :=
  rows d1 = rows d2 /\ cols d1 = cols d2
  /\ forall i j, 0 <= i < rows d1 -> 0 <= j < cols d1 -> stored d1 i j = stored d2 i j.

(** Writing [g q] at every position [q] of a list, in the order of the list. *)
Definition write_all (g : Z * Z -> Scalar) (qs : list (Z * Z)) (dst : Matrix) : Matrix :=
  foldl (fun d q => coeffRef d q.1 q.2 (g q)) dst qs.
End Assignment.

Arguments Expr Scalar : clear implicits.
Arguments Matrix Scalar : clear implicits.

(** ** The conjugate gradient solver (ConjugateGradient.h) *)

(** [while (cond) body] over a state.  [None]: the loop has not ended within
    [fuel] iterations. *)
Fixpoint while_loop {S : Type} (fuel : nat) (cond : S -> bool) (body : S -> S) (s : S)
    : option S :=
  if cond s then
    match fuel with
    | O => None
    | S fuel' => while_loop fuel' cond body (body s)
    end
  else Some s.

(** Modelled from the spec: what the template parameters of the solver
    supply and the listing does not hold: the scalar types with their
    arithmetic, the vectors with sum, difference, scaling and [dot], the
    matrix with its self-adjoint view and the product of that view with a
    vector, and the preconditioner with [compute] and [solve]. *)
Class LinearAlgebra : Type := {
  Scalar : Type;
  RealScalar : Type;
  MatrixType : Type;
  SelfAdjointView : Type;
  VectorType : Type;
  Preconditioner : Type;
  (* MatrixType and mat.selfadjointView<UpLo>() *)
  matrix_rows : MatrixType -> Z;
  matrix_cols : MatrixType -> Z;
  selfadjointView : MatrixType -> SelfAdjointView;
  view_cols : SelfAdjointView -> Z;
  view_times : SelfAdjointView -> VectorType -> VectorType;
  (* VectorType *)
  vector_rows : VectorType -> Z;
  setZero : VectorType -> VectorType;
  plus : VectorType -> VectorType -> VectorType;
  minus : VectorType -> VectorType -> VectorType;
  scaled : Scalar -> VectorType -> VectorType;
  dot : VectorType -> VectorType -> Scalar;
  (* Scalar and RealScalar *)
  real : Scalar -> RealScalar;
  of_real : RealScalar -> Scalar;
  sdiv : Scalar -> Scalar -> Scalar;
  rmul : RealScalar -> RealScalar -> RealScalar;
  rdiv : RealScalar -> RealScalar -> RealScalar;
  rgt : RealScalar -> RealScalar -> bool;
  rle : RealScalar -> RealScalar -> bool;
  rsqrt : RealScalar -> RealScalar;
  rabs : RealScalar -> RealScalar;
  epsilon : RealScalar;
  (* Preconditioner *)
  default_preconditioner : Preconditioner;
  precond_compute : Preconditioner -> MatrixType -> Preconditioner;
  precond_solve : Preconditioner -> VectorType -> VectorType
}.

(** The two values of [ComputationInfo] the solver reports. *)
Inductive ComputationInfo : Set :=
| Success
| NoConvergence.

Section Solver.
Context `{LinearAlgebra}.

(** *** internal::conjugate_gradient *)

(** The variables the loop reads and writes. *)
Record cg_state : Type := {
  cg_x : VectorType;
  cg_residual : VectorType;
  cg_p : VectorType;
  cg_absNew : RealScalar;
  cg_i : Z
}.

(** [residual = rhs - mat * x; p = precond.solve(residual);
    absNew = real(residual.dot(p)); i = 0] *)
Definition cg_start (mat : SelfAdjointView) (rhs x : VectorType) (precond : Preconditioner)
    : cg_state :=
  let residual := minus rhs (view_times mat x) in
  let p := precond_solve precond residual in
  {| cg_x := x; cg_residual := residual; cg_p := p;
     cg_absNew := real (dot residual p); cg_i := 0 |}.

(** [(i < maxIters) && (absNew > tol*tol*absInit)] *)
Definition cg_continue (maxIters : Z) (tol absInit : RealScalar) (st : cg_state) : bool :=
  (cg_i st <? maxIters) && rgt (cg_absNew st) (rmul (rmul tol tol) absInit).

(** The body of the loop. *)
Definition cg_body (mat : SelfAdjointView) (precond : Preconditioner) (st : cg_state)
    : cg_state :=
  let tmp := view_times mat (cg_p st) in
  let alpha := sdiv (of_real (cg_absNew st)) (dot (cg_p st) tmp) in
  let x := plus (cg_x st) (scaled alpha (cg_p st)) in
  let residual := minus (cg_residual st) (scaled alpha tmp) in
  let z := precond_solve precond residual in
  let absOld := cg_absNew st in
  let absNew := real (dot residual z) in
  let beta := rdiv absNew absOld in
  let p := plus z (scaled (of_real beta) (cg_p st)) in
  {| cg_x := x; cg_residual := residual; cg_p := p; cg_absNew := absNew;
     cg_i := cg_i st + 1 |}.

(** [conjugate_gradient(mat, rhs, x, precond, iters, tol_error)]: the new
    values of [x], [iters] and [tol_error].  [n = mat.cols()] only sizes the
    temporaries [p], [z] and [tmp], each written before it is read.  The loop
    is given [maxIters] iterations of fuel. *)
Definition conjugate_gradient (mat : SelfAdjointView) (rhs x : VectorType)
    (precond : Preconditioner) (iters : Z) (tol_error : RealScalar)
    : option (VectorType * Z * RealScalar) :=
  let tol := tol_error in
  let maxIters := iters in
  let start := cg_start mat rhs x precond in
  let absInit := cg_absNew start in
  match while_loop (Z.to_nat maxIters) (cg_continue maxIters tol absInit)
          (cg_body mat precond) start with
  | Some st => Some (cg_x st, cg_i st, rsqrt (rabs (rdiv (cg_absNew st) absInit)))
  | None => None
  end.

(** *** class ConjugateGradient *)

(** [mp_matrix] is a pointer, [None] the null pointer; the matrix behind it
    is the one the caller keeps alive and unchanged. *)
Record ConjugateGradient : Type := {
  mp_matrix : option MatrixType;
  m_preconditioner : Preconditioner;
  m_maxIterations : Z;
  m_tolerance : RealScalar;
  m_error : RealScalar;
  m_iterations : Z;
  m_info : ComputationInfo;
  m_isInitialized : bool
}.

Definition init (s : ConjugateGradient) : ConjugateGradient :=
  {| mp_matrix := mp_matrix s; m_preconditioner := m_preconditioner s;
     m_maxIterations := 1000; m_tolerance := epsilon;
     m_error := m_error s; m_iterations := m_iterations s; m_info := m_info s;
     m_isInitialized := false |}.

Definition compute (s : ConjugateGradient) (A : MatrixType) : ConjugateGradient :=
  {| mp_matrix := Some A; m_preconditioner := precond_compute (m_preconditioner s) A;
     m_maxIterations := m_maxIterations s; m_tolerance := m_tolerance s;
     m_error := m_error s; m_iterations := m_iterations s; m_info := m_info s;
     m_isInitialized := true |}.

(** The default constructor.  [raw] is the object before construction: the
    members no constructor writes ([m_error], [m_iterations], [m_info]) keep
    the values found there. *)
Definition ConjugateGradient_new (raw : ConjugateGradient) : ConjugateGradient :=
  init {| mp_matrix := None; m_preconditioner := default_preconditioner;
          m_maxIterations := m_maxIterations raw; m_tolerance := m_tolerance raw;
          m_error := m_error raw; m_iterations := m_iterations raw; m_info := m_info raw;
          m_isInitialized := m_isInitialized raw |}.

(** The constructor from a matrix: [init(); compute(A);]. *)
Definition ConjugateGradient_of (raw : ConjugateGradient) (A : MatrixType) : ConjugateGradient :=
  compute
    (init {| mp_matrix := mp_matrix raw; m_preconditioner := default_preconditioner;
             m_maxIterations := m_maxIterations raw; m_tolerance := m_tolerance raw;
             m_error := m_error raw; m_iterations := m_iterations raw; m_info := m_info raw;
             m_isInitialized := m_isInitialized raw |}) A.

Definition setTolerance (s : ConjugateGradient) (tolerance : RealScalar) : ConjugateGradient :=
  {| mp_matrix := mp_matrix s; m_preconditioner := m_preconditioner s;
     m_maxIterations := m_maxIterations s; m_tolerance := tolerance;
     m_error := m_error s; m_iterations := m_iterations s; m_info := m_info s;
     m_isInitialized := m_isInitialized s |}.

Definition setMaxIterations (s : ConjugateGradient) (maxIters : Z) : ConjugateGradient :=
  {| mp_matrix := mp_matrix s; m_preconditioner := m_preconditioner s;
     m_maxIterations := maxIters; m_tolerance := m_tolerance s;
     m_error := m_error s; m_iterations := m_iterations s; m_info := m_info s;
     m_isInitialized := m_isInitialized s |}.

(** [rows()] and [cols()]: [mp_matrix->rows()], [mp_matrix->cols()] *)
Definition solver_rows (s : ConjugateGradient) : outcome Z :=
  match mp_matrix s with
  | Some A => Returns (matrix_rows A)
  | None => Undefined
  end.

Definition solver_cols (s : ConjugateGradient) : outcome Z :=
  match mp_matrix s with
  | Some A => Returns (matrix_cols A)
  | None => Undefined
  end.

Definition iterations (s : ConjugateGradient) : outcome Z :=
  ei_assert (m_isInitialized s) NotInitialized;;
  Returns (m_iterations s).

Definition error (s : ConjugateGradient) : outcome RealScalar :=
  ei_assert (m_isInitialized s) NotInitialized;;
  Returns (m_error s).

Definition info (s : ConjugateGradient) : outcome ComputationInfo :=
  ei_assert (m_isInitialized s) NotInitialized;;
  Returns (m_info s).

(** The deferred result of [solve].  Its reference to the solver is the
    solver object itself, whose current state [evalTo] is given; it holds the
    right-hand side the caller passed. *)
Record solve_retval : Type := { sr_rhs : VectorType }.

(** The deferred result with a guess.  The class is declared with [class]
    and no access specifier: its constructor, its [evalTo] and its base
    [solve_retval_base] are private and it names no friend (and [m_guess] is
    a reference bound to the constructor's by-value parameter).  No caller can
    build an object of it or call its [evalTo]: the type has no constructor
    and no operation. *)
Inductive conjugate_gradient_solve_retval_with_guess : Type := .

Definition solve (s : ConjugateGradient) (b : VectorType) : outcome solve_retval :=
  ei_assert (m_isInitialized s) NotInitialized;;
  r ← solver_rows s;
  ei_assert (r =? vector_rows b) DimensionMismatch;;
  Returns {| sr_rhs := b |}.

(** [solveWithGuess(b, x0)]: the two assertions, then a [return] that calls
    the private constructor of the class above, which is ill-formed: past the
    assertions the call has no behaviour. *)
Definition solveWithGuess (s : ConjugateGradient) (b x0 : VectorType)
    : outcome conjugate_gradient_solve_retval_with_guess :=
  ei_assert (m_isInitialized s) NotInitialized;;
  r ← solver_rows s;
  ei_assert (r =? vector_rows b) DimensionMismatch;;
  Undefined.

(** [_solve(b, x)]: the solver with its mutable members rewritten, and [x]. *)
Definition _solve (s : ConjugateGradient) (b x : VectorType)
    : outcome (ConjugateGradient * VectorType) :=
  let iterations_in := m_maxIterations s in
  let error_in := m_tolerance s in
  match mp_matrix s with
  | None => Undefined
  | Some A =>
      match conjugate_gradient (selfadjointView A) b x (m_preconditioner s)
              iterations_in error_in with
      | None => Undefined
      | Some (x', iterations_out, error_out) =>
          Returns
            ({| mp_matrix := mp_matrix s; m_preconditioner := m_preconditioner s;
                m_maxIterations := m_maxIterations s; m_tolerance := m_tolerance s;
                m_error := error_out; m_iterations := iterations_out;
                m_info := if rle error_out (m_tolerance s) then Success else NoConvergence;
                m_isInitialized := true |}, x')
      end
  end.

(** [solve_retval::evalTo(dst)]: [dst.setZero(); dec()._solve(rhs(), dst);] *)
Definition evalTo (w : solve_retval) (s : ConjugateGradient) (dst : VectorType)
    : outcome (ConjugateGradient * VectorType) :=
  let dst := setZero dst in
  _solve s (sr_rhs w) dst.

(** *** Histories of a solver object *)

(** The calls that only set the configuration. *)
Inductive configure_step : ConjugateGradient -> ConjugateGradient -> Prop :=
| configure_tolerance s tolerance : configure_step s (setTolerance s tolerance)
| configure_maxIterations s maxIters : configure_step s (setMaxIterations s maxIters).

(** The calls that change the solver and run no solve. *)
Inductive setup_step : ConjugateGradient -> ConjugateGradient -> Prop :=
| setup_configure s s' : configure_step s s' -> setup_step s s'
| setup_compute s A : setup_step s (compute s A).

(** Every call that changes the solver, a materialised solve included. *)
Inductive solver_step : ConjugateGradient -> ConjugateGradient -> Prop :=
| step_setup s s' : setup_step s s' -> solver_step s s'
| step_evalTo s w dst s' x :
    evalTo w s dst = Returns (s', x) -> solver_step s s'.

(** A solver that is marked initialised and holds a matrix. *)
Definition ready (s : ConjugateGradient) : Prop :=
  m_isInitialized s = true /\ is_Some (mp_matrix s).

(** A default-constructed solver on which [compute] was never called. *)
Definition never_computed (s : ConjugateGradient) : Prop :=
  exists raw, rtc configure_step (ConjugateGradient_new raw) s.

End Solver.

(** ** An instance: double precision, dense storage, no preconditioning *)

(** Modelled from the spec: the collaborators of the solver, for IEEE 754
    binary64 scalars: vectors are lists, a matrix is the list of its rows,
    [dot] sums the products of the coefficients, the self-adjoint view reads
    the lower triangle ([UpLo = Lower]) and mirrors it, and the trivial
    identity preconditioner has [solve(r) = r]. *)
Definition double_dot (a b : list float) : float :=
  foldl PrimFloat.add 0%float (zip_with PrimFloat.mul a b).

Definition double_entry (A : list (list float)) (i j : nat) : float :=
  nth j (nth i A []) 0%float.

Definition double_lower_view (A : list (list float)) : list (list float) :=
  (fun i => (fun j => if (j <=? i)%nat then double_entry A i j else double_entry A j i)
              <$> seq 0 (length A))
    <$> seq 0 (length A).

Definition double_times (V : list (list float)) (v : list float) : list float :=
  (fun row => double_dot row v) <$> V.

#[export] Instance double_dense : LinearAlgebra := {|
  Scalar := float;
  RealScalar := float;
  MatrixType := list (list float);
  SelfAdjointView := list (list float);
  VectorType := list float;
  Preconditioner := unit;
  matrix_rows := fun A => Z.of_nat (length A);
  matrix_cols := fun A => Z.of_nat (length (hd [] A));
  selfadjointView := double_lower_view;
  view_cols := fun V => Z.of_nat (length (hd [] V));
  view_times := double_times;
  vector_rows := fun v => Z.of_nat (length v);
  setZero := fun v => (fun _ => 0%float) <$> v;
  plus := zip_with PrimFloat.add;
  minus := zip_with PrimFloat.sub;
  scaled := fun a v => PrimFloat.mul a <$> v;
  dot := double_dot;
  real := fun a => a;
  of_real := fun a => a;
  sdiv := PrimFloat.div;
  rmul := PrimFloat.mul;
  rdiv := PrimFloat.div;
  rgt := fun a b => PrimFloat.ltb b a;
  rle := PrimFloat.leb;
  rsqrt := PrimFloat.sqrt;
  rabs := PrimFloat.abs;
  epsilon := 0x1p-52%float;
  default_preconditioner := tt;
  precond_compute := fun M _ => M;
  precond_solve := fun _ r => r
|}.

(** Values of the two constants for the examples: a sentinel above every
    fixed size in use, and a budget below the sentinel. *)
#[export] Instance eigen2_constants : Constants :=
  {| Dynamic := 10000; EIGEN_UNROLLING_LIMIT := 100 |}.

(** Fixed-size types over integer scalars, each coefficient read at cost 1:
    a row vector and a column vector of three coefficients, and 2 x 2
    matrices. *)
Definition fixed_size (r c : Z) : Traits :=
  {| RowsAtCompileTime := r; ColsAtCompileTime := c;
     MaxRowsAtCompileTime := r; MaxColsAtCompileTime := c; CoeffReadCost := 1 |}.

Definition row_3 : Matrix Z :=
  {| m_traits := fixed_size 1 3; m_rows := 1; m_cols := 3; m_storage := ∅ |}.

Definition column_3 : Expr Z :=
  {| expr_traits := fixed_size 3 1; expr_rows := 3; expr_cols := 1;
     expr_coeff := fun i j => 10 + i |}.

Definition square_2 : Matrix Z :=
  {| m_traits := fixed_size 2 2; m_rows := 2; m_cols := 2; m_storage := ∅ |}.

Definition other_square_2 : Matrix Z :=
  {| m_traits := fixed_size 2 2; m_rows := 2; m_cols := 2;
     m_storage := {[ (0, 0) := 5; (1, 1) := 7 ]} |}.

Definition table_2 : Expr Z :=
  {| expr_traits := fixed_size 2 2; expr_rows := 2; expr_cols := 2;
     expr_coeff := fun i j => 10 * i + j |}.

(** A solver object before its construction, with arbitrary contents. *)
Definition raw_solver : @ConjugateGradient double_dense :=
  {| mp_matrix := None; m_preconditioner := tt;
     m_maxIterations := 0; m_tolerance := 0%float;
     m_error := 0.5%float; m_iterations := 7; m_info := Success;
     m_isInitialized := false |}.

(** The system [2 x = 6] and its exact solution. *)
Definition A_2 : @MatrixType double_dense := [[2%float]].
Definition b_6 : @VectorType double_dense := [6%float].
Definition x_3 : @VectorType double_dense := [3%float].

(** Other vectors: of one coefficient, of two, and of none. *)
Definition x_0 : @VectorType double_dense := [0%float].
Definition x_1 : @VectorType double_dense := [1%float].
Definition b_6_1 : @VectorType double_dense := [6%float; 1%float].
Definition no_coefficient : @VectorType double_dense := [].

(** A default-constructed solver after [compute(A_2)], and the same solver
    after [x = solve(b_6)] was materialised. *)
Definition computed_solver : @ConjugateGradient double_dense :=
  compute (ConjugateGradient_new raw_solver) A_2.

Definition solved_solver : @ConjugateGradient double_dense :=
  {| mp_matrix := Some A_2; m_preconditioner := tt;
     m_maxIterations := 1000; m_tolerance := 0x1p-52%float;
     m_error := 0%float; m_iterations := 1; m_info := Success;
     m_isInitialized := true |}.

(** ** More of MatrixBase.h: findBiggestCoeff *)

Section BiggestCoeff.
Context {Scalar RealScalar : Type}.
Variables (ei_abs : Scalar -> RealScalar) (zero : RealScalar)
          (greater : RealScalar -> RealScalar -> bool).

(** The body of the inner loop, on [biggest], [*row] and [*col]:
    [x = ei_abs(coeff(i,j)); if(x > biggest) { biggest = x; *row = i; *col = j; }] *)
Definition biggest_step (m : Expr Scalar) (i j : Z) (st : RealScalar * Z * Z)
    : RealScalar * Z * Z :=
  let '(biggest, row, col) := st in
  let x := ei_abs (coeff m i j) in
  if greater x biggest then (x, i, j) else (biggest, row, col).

(** The two loops of [findBiggestCoeff], from [biggest = 0] and what [*row]
    and [*col] hold on entry. *)
Definition findBiggestCoeff_scan (m : Expr Scalar) (row col : Z) : RealScalar * Z * Z :=
  for_loop (cols m) (fun j st =>
    for_loop (rows m) (fun i st => biggest_step m i j st) st) (zero, row, col).

(** [findBiggestCoeff(row, col)]: what [*row] and [*col] hold on return. *)
Definition findBiggestCoeff (m : Expr Scalar) (row col : Z) : Z * Z :=
  let '(_, row', col') := findBiggestCoeff_scan m row col in (row', col').
End BiggestCoeff.

(** ** More of ConjugateGradient.h: the read accessors of the configuration *)

Section SolverAccessors.
Context `{LinearAlgebra}.

Definition tolerance (s : ConjugateGradient) : RealScalar := m_tolerance s.
Definition maxIterations (s : ConjugateGradient) : Z := m_maxIterations s.
Definition preconditioner (s : ConjugateGradient) : Preconditioner := m_preconditioner s.

(** A materialised solve: the wrapper of [solve] evaluated into some
    destination. *)
Definition materialised (s : ConjugateGradient) (s' : ConjugateGradient) (x : VectorType)
    : Prop :=
  exists w dst, evalTo w s dst = Returns (s', x).

(** The calls that are not setters: [compute] and a materialised solve. *)
Inductive compute_or_solve_step : ConjugateGradient -> ConjugateGradient -> Prop :=
| by_compute s A : compute_or_solve_step s (compute s A)
| by_solve s s' x : materialised s s' x -> compute_or_solve_step s s'.
End SolverAccessors.

(** More fixed-size examples: a second source for the 2 x 2 destinations,
    a source of zeros, and a source with a negative coefficient of biggest
    absolute value. *)
Definition other_table_2 : Expr Z :=
  {| expr_traits := fixed_size 2 2; expr_rows := 2; expr_cols := 2;
     expr_coeff := fun i j => 100 + i - j |}.

Definition zero_table_2 : Expr Z :=
  {| expr_traits := fixed_size 2 2; expr_rows := 2; expr_cols := 2;
     expr_coeff := fun _ _ => 0 |}.

Definition signed_table_2 : Expr Z :=
  {| expr_traits := fixed_size 2 2; expr_rows := 2; expr_cols := 2;
     expr_coeff := fun i j => if (i =? 1) && (j =? 0) then -9 else i + j |}.




(** A default-constructed solver given a budget of 5, and the same solver
    after [compute(A_2)] and a materialised [x = solve(b_6)]. *)
Definition configured_solver : @ConjugateGradient double_dense :=
  setMaxIterations (ConjugateGradient_new raw_solver) 5.

Definition configured_solved_solver : @ConjugateGradient double_dense :=
  {| mp_matrix := Some A_2; m_preconditioner := tt;
     m_maxIterations := 5; m_tolerance := 0x1p-52%float;
     m_error := 0%float; m_iterations := 1; m_info := Success;
     m_isInitialized := true |}.

(* ===================================================================== *)
(** * Part II: properties *)
(* ===================================================================== *)

(** ** The assignment engine *)

Section AssignmentFacts.
Context `{Constants} {Scalar : Type}.
Implicit Types (dst d : Matrix Scalar) (src other : Expr Scalar).
Implicit Types (g : Z * Z -> Scalar) (qs : list (Z * Z)).

Lemma Matrix_eq d1 d2 :
  m_traits d1 = m_traits d2 -> m_rows d1 = m_rows d2 -> m_cols d1 = m_cols d2 ->
  m_storage d1 = m_storage d2 -> d1 = d2.
Proof. destruct d1, d2; simpl; intros; subst; reflexivity. Qed.

Lemma write_all_app g qs1 qs2 d :
  write_all g (qs1 ++ qs2) d = write_all g qs2 (write_all g qs1 d).
Proof. unfold write_all. apply foldl_app. Qed.

Lemma write_all_shape g qs d :
  m_traits (write_all g qs d) = m_traits d
  /\ m_rows (write_all g qs d) = m_rows d
  /\ m_cols (write_all g qs d) = m_cols d.
Proof.
  revert d. induction qs as [|q qs IH]; intros d; [done|].
  destruct (IH (coeffRef d q.1 q.2 (g q))) as (Ht & Hr & Hc).
  unfold write_all in *; simpl. rewrite Ht, Hr, Hc. done.
Qed.

Lemma stored_write_all g qs d i j :
  stored (write_all g qs d) i j
  = if decide ((i, j) ∈ qs) then Some (g (i, j)) else stored d i j.
Proof.
  revert d. induction qs as [|q qs IH] using rev_ind; intros d.
  - case_decide as Hin; [by apply elem_of_nil in Hin | done].
  - rewrite write_all_app. unfold write_all at 1; simpl.
    unfold stored at 1, coeffRef; simpl. fold (stored (write_all g qs d)).
    destruct q as [qi qj]; simpl.
    destruct (decide ((qi, qj) = (i, j))) as [->|Hne].
    + rewrite lookup_insert_eq. rewrite decide_True by set_solver. done.
    + rewrite lookup_insert_ne by done. fold (stored (write_all g qs d) i j).
      rewrite IH.
      destruct (decide ((i, j) ∈ qs)) as [Hin|Hin].
      * rewrite decide_True; [reflexivity|]. apply elem_of_app. left. exact Hin.
      * rewrite decide_False; [reflexivity|]. intros Happ.
        apply elem_of_app in Happ as [Hqs|Hlast]; [exact (Hin Hqs)|].
        apply list_elem_of_singleton in Hlast. exact (Hne (eq_sym Hlast)).
Qed.

(** Two orders over the same positions leave the same destination. *)
Lemma write_all_same_positions g qs1 qs2 d :
  (forall q, q ∈ qs1 <-> q ∈ qs2) -> write_all g qs1 d = write_all g qs2 d.
Proof.
  intros Hq.
  destruct (write_all_shape g qs1 d) as (Ht1 & Hr1 & Hc1).
  destruct (write_all_shape g qs2 d) as (Ht2 & Hr2 & Hc2).
  apply Matrix_eq; [congruence..|].
  apply map_eq. intros [i j].
  pose proof (stored_write_all g qs1 d i j) as E1.
  pose proof (stored_write_all g qs2 d i j) as E2.
  unfold stored in E1, E2. rewrite E1, E2.
  destruct (decide ((i, j) ∈ qs1)) as [Hin|Hin].
  - rewrite decide_True by (apply Hq; exact Hin). reflexivity.
  - rewrite decide_False; [reflexivity|]. intros Hin2. apply Hin, Hq, Hin2.
Qed.

Lemma for_loop_write g (pos : Z -> Z * Z) n d :
  for_loop n (fun k d => coeffRef d (pos k).1 (pos k).2 (g (pos k))) d
  = write_all g (pos <$> seqZ 0 n) d.
Proof.
  unfold for_loop, write_all. generalize (seqZ 0 n) as ks. intros ks. revert d.
  induction ks as [|k ks IH]; intros d; simpl; [reflexivity | apply IH].
Qed.

Lemma write_all_bind {A : Type} g (h : A -> list (Z * Z)) (l : list A) d :
  write_all g (l ≫= h) d = foldl (fun d x => write_all g (h x) d) d l.
Proof.
  revert d. induction l as [|x l IH]; intros d; simpl; [reflexivity|].
  rewrite write_all_app. apply IH.
Qed.

Lemma foldl_preserving {A S : Type} (P : S -> Prop) (f f' : S -> A -> S) (l : list A) s :
  P s -> (forall s x, P s -> P (f s x) /\ f s x = f' s x) -> foldl f s l = foldl f' s l.
Proof.
  intros Hs Hf. revert s Hs. induction l as [|x l IH]; intros s Hs; simpl; [reflexivity|].
  destruct (Hf s x Hs) as [HP <-]. apply IH, HP.
Qed.

Lemma column_major_loop_writes dst other :
  column_major_loop dst other
  = write_all (reads other) (column_major_positions (rows dst) (cols dst)) dst.
Proof.
  unfold column_major_loop, column_major_positions. rewrite write_all_bind.
  unfold for_loop at 1.
  apply (foldl_preserving (fun d => rows d = rows dst)); [reflexivity|].
  intros d j Hd; cbn beta. rewrite Hd.
  rewrite <- (for_loop_write (reads other) (fun i => (i, j))).
  split; [|reflexivity].
  rewrite (for_loop_write (reads other) (fun i => (i, j))).
  unfold rows in *; simpl in *. rewrite <- Hd. apply write_all_shape.
Qed.

Lemma row_major_loop_writes dst other :
  row_major_loop dst other
  = write_all (reads other) (row_major_positions (rows dst) (cols dst)) dst.
Proof.
  unfold row_major_loop, row_major_positions. rewrite write_all_bind.
  unfold for_loop at 1.
  apply (foldl_preserving (fun d => cols d = cols dst)); [reflexivity|].
  intros d i Hd; cbn beta. rewrite Hd.
  rewrite <- (for_loop_write (reads other) (fun j => (i, j))).
  split; [|reflexivity].
  rewrite (for_loop_write (reads other) (fun j => (i, j))).
  unfold cols in *; simpl in *. rewrite <- Hd. apply write_all_shape.
Qed.

Lemma elem_of_column_major_positions r c i j :
  (i, j) ∈ column_major_positions r c <-> 0 <= i < r /\ 0 <= j < c.
Proof.
  unfold column_major_positions. rewrite list_elem_of_bind. split.
  - intros (j' & Hi & Hj). apply list_elem_of_fmap in Hi as (i' & Heq & Hi).
    inversion Heq; subst. apply elem_of_seqZ in Hi, Hj. lia.
  - intros [Hi Hj]. exists j. split.
    + apply list_elem_of_fmap. exists i. split; [reflexivity|]. apply elem_of_seqZ. lia.
    + apply elem_of_seqZ. lia.
Qed.

Lemma elem_of_row_major_positions r c i j :
  (i, j) ∈ row_major_positions r c <-> 0 <= i < r /\ 0 <= j < c.
Proof.
  unfold row_major_positions. rewrite list_elem_of_bind. split.
  - intros (i' & Hj & Hi). apply list_elem_of_fmap in Hj as (j' & Heq & Hj).
    inversion Heq; subst. apply elem_of_seqZ in Hi, Hj. lia.
  - intros [Hi Hj]. exists i. split.
    + apply list_elem_of_fmap. exists j. split; [reflexivity|]. apply elem_of_seqZ. lia.
    + apply elem_of_seqZ. lia.
Qed.

Lemma elem_of_unrolled_positions t r c i j :
  1 <= r -> 0 <= c -> RowsAtCompileTime t = r ->
  (i, j) ∈ unrolled_position t <$> seqZ 0 (r * c) <-> 0 <= i < r /\ 0 <= j < c.
Proof.
  intros Hr Hc Ht. rewrite list_elem_of_fmap. unfold unrolled_position. rewrite Ht. split.
  - intros (idx & Heq & Hidx). apply elem_of_seqZ in Hidx. inversion Heq; subst i j; clear Heq.
    rewrite Z.rem_mod_nonneg, Z.quot_div_nonneg by lia.
    pose proof (Z.mod_pos_bound idx r ltac:(lia)).
    pose proof (Z.div_pos idx r ltac:(lia) ltac:(lia)).
    assert (idx `div` r < c) by (apply Z.div_lt_upper_bound; lia).
    lia.
  - intros [Hi Hj]. exists (i + j * r). split.
    + rewrite Z.rem_mod_nonneg, Z.quot_div_nonneg by nia.
      f_equal.
      * rewrite Z.mod_add by lia. symmetry. apply Z.mod_small. lia.
      * rewrite Z.div_add by lia. rewrite Z.div_small by lia. lia.
    + apply elem_of_seqZ. nia.
Qed.

Lemma seqZ_snoc n : 0 <= n -> seqZ 0 (n + 1) = seqZ 0 n ++ [n].
Proof.
  intros Hn. rewrite seqZ_app by lia. f_equal.
Qed.

(** The matrix unroller writes the positions of the linear indices below
    its count, lowest first, provided the chain does not meet the sentinel. *)
Lemma matrix_unroller_run_writes n : 0 <= n -> forall depth dst src,
  ~ (1 <= Dynamic <= n) -> (Z.to_nat n < depth)%nat ->
  ei_matrix_operator_equals_unroller_run depth n dst src
  = Returns (write_all (reads src) (unrolled_position (traits dst) <$> seqZ 0 n) dst).
Proof.
  intros Hn. pattern n. apply natlike_ind; [| |exact Hn]; clear n Hn.
  - intros [|depth] dst src HD Hdepth; [lia|].
    cbn [ei_matrix_operator_equals_unroller_run].
    destruct (0 =? Dynamic); reflexivity.
  - intros n Hn IH [|depth] dst src HD Hdepth; [lia|].
    cbn [ei_matrix_operator_equals_unroller_run].
    destruct (Z.eqb_spec (Z.succ n) Dynamic) as [E|_]; [lia|].
    destruct (Z.eqb_spec (Z.succ n) 0) as [E|_]; [lia|].
    destruct (Z.eqb_spec (Z.succ n) 1) as [E|E].
    + assert (n = 0) as -> by lia. cbn.
      unfold write_all, unrolled_position, reads; simpl.
      reflexivity.
    + replace (Z.succ n - 1) with n by lia.
      rewrite IH by lia. cbn.
      replace (Z.succ n) with (n + 1) by lia.
      rewrite seqZ_snoc, fmap_app, write_all_app by lia. reflexivity.
Qed.

Lemma index_position_sum t k : (index_position t k).1 + (index_position t k).2 = k.
Proof. unfold index_position. destruct (_ =? _); simpl; lia. Qed.

Lemma coeffRef_at_writes d other k :
  coeffRef_at d k (coeff_at other k)
  = write_all (reads_at other) [index_position (traits d) k] d.
Proof.
  unfold coeffRef_at, write_all, reads_at; simpl.
  rewrite index_position_sum. reflexivity.
Qed.

Lemma vector_loop_writes dst other :
  vector_loop dst other
  = write_all (reads_at other) (index_position (traits dst) <$> seqZ 0 (size dst)) dst.
Proof.
  unfold vector_loop. rewrite <- for_loop_write. unfold for_loop.
  apply (foldl_preserving (fun d => traits d = traits dst)); [reflexivity|].
  intros d k Hd. rewrite coeffRef_at_writes. rewrite Hd. split; [|unfold write_all; simpl].
  - rewrite <- Hd. apply write_all_shape.
  - unfold reads_at; simpl. rewrite index_position_sum. reflexivity.
Qed.

Lemma vector_unroller_run_writes n : 0 <= n -> forall depth dst src,
  ~ (1 <= Dynamic <= n) -> (Z.to_nat n < depth)%nat ->
  ei_vector_operator_equals_unroller_run depth n dst src
  = Returns (write_all (reads_at src) (index_position (traits dst) <$> seqZ 0 n) dst).
Proof.
  intros Hn. pattern n. apply natlike_ind; [| |exact Hn]; clear n Hn.
  - intros [|depth] dst src HD Hdepth; [lia|].
    cbn [ei_vector_operator_equals_unroller_run].
    destruct (0 =? Dynamic); reflexivity.
  - intros n Hn IH [|depth] dst src HD Hdepth; [lia|].
    cbn [ei_vector_operator_equals_unroller_run].
    destruct (Z.eqb_spec (Z.succ n) Dynamic) as [E|_]; [lia|].
    destruct (Z.eqb_spec (Z.succ n) 0) as [E|_]; [lia|].
    destruct (Z.eqb_spec (Z.succ n) 1) as [E|E].
    + assert (n = 0) as -> by lia. rewrite coeffRef_at_writes. reflexivity.
    + replace (Z.succ n - 1) with n by lia.
      rewrite IH by lia. cbn.
      replace (Z.succ n) with (n + 1) by lia.
      rewrite seqZ_snoc, fmap_app, write_all_app by lia.
      rewrite coeffRef_at_writes.
      destruct (write_all_shape (reads_at src) (index_position (traits dst) <$> seqZ 0 n) dst)
        as (Ht & _). cbn in Ht |- *. rewrite Ht. reflexivity.
Qed.



Lemma elem_of_unrolled_positions_all t r c i j :
  0 <= r -> 0 <= c -> RowsAtCompileTime t = r ->
  (i, j) ∈ unrolled_position t <$> seqZ 0 (r * c) <-> 0 <= i < r /\ 0 <= j < c.
Proof.
  intros Hr Hc Ht. destruct (decide (r = 0)) as [->|Hr0].
  - rewrite Z.mul_0_l. rewrite seqZ_nil by lia. rewrite fmap_nil.
    split; [intros Hin; by apply elem_of_nil in Hin | lia].
  - apply elem_of_unrolled_positions; [lia | exact Hc | exact Ht].
Qed.

Lemma well_shaped_spec {Derived : Type} `{!MatrixBase Derived} (m : Derived) :
  well_shaped m = true <->
  (RowsAtCompileTime (traits m) = Dynamic \/ rows m = RowsAtCompileTime (traits m))
  /\ (ColsAtCompileTime (traits m) = Dynamic \/ cols m = ColsAtCompileTime (traits m))
  /\ 0 <= rows m /\ 0 <= cols m.
Proof.
  unfold well_shaped.
  rewrite !andb_true_iff, !orb_true_iff, !Z.eqb_eq, !Z.leb_le. tauto.
Qed.

(** A size known at compile time is the size at runtime. *)
Lemma known_size {Derived : Type} `{!MatrixBase Derived} (m : Derived) :
  well_shaped m = true ->
  RowsAtCompileTime (traits m) <> Dynamic -> ColsAtCompileTime (traits m) <> Dynamic ->
  RowsAtCompileTime (traits m) = rows m /\ ColsAtCompileTime (traits m) = cols m
  /\ SizeAtCompileTime (traits m) = size m /\ 0 <= rows m /\ 0 <= cols m.
Proof.
  intros Hw HR HC. apply well_shaped_spec in Hw as ([?|Hr] & [?|Hc] & Hr0 & Hc0); try done.
  unfold SizeAtCompileTime, size.
  destruct (Z.eqb_spec (RowsAtCompileTime (traits m)) Dynamic); [done|].
  destruct (Z.eqb_spec (ColsAtCompileTime (traits m)) Dynamic); [done|].
  cbn. repeat split; first [lia | rewrite Hr, Hc; reflexivity].
Qed.

Lemma size_known_extents_known (t : Traits) :
  SizeAtCompileTime t <> Dynamic ->
  RowsAtCompileTime t <> Dynamic /\ ColsAtCompileTime t <> Dynamic.
Proof.
  unfold SizeAtCompileTime.
  destruct (Z.eqb_spec (RowsAtCompileTime t) Dynamic); [done|].
  destruct (Z.eqb_spec (ColsAtCompileTime t) Dynamic); [done|]. auto.
Qed.

(** With the budget below a positive sentinel and a cost of at least one,
    a size within the budget is a known size. *)
Lemma unroll_size_known dst other :
  1 < Dynamic -> EIGEN_UNROLLING_LIMIT < Dynamic -> 1 <= CoeffReadCost (traits other) ->
  unroll dst other = true -> SizeAtCompileTime (traits dst) <> Dynamic.
Proof.
  intros H0 HL Hcost Hu HS. unfold unroll in Hu. apply Z.leb_le in Hu.
  rewrite HS in Hu. nia.
Qed.

Lemma unroll_size_below_sentinel dst other :
  1 < Dynamic -> EIGEN_UNROLLING_LIMIT < Dynamic -> 1 <= CoeffReadCost (traits other) ->
  well_shaped dst = true -> unroll dst other = true ->
  RowsAtCompileTime (traits dst) <> Dynamic /\ ColsAtCompileTime (traits dst) <> Dynamic
  /\ ~ (1 <= Dynamic <= size dst).
Proof.
  intros H0 HL Hcost Hw Hu.
  pose proof (unroll_size_known dst other H0 HL Hcost Hu) as HS.
  destruct (size_known_extents_known _ HS) as [HR HC].
  destruct (known_size dst Hw HR HC) as (_ & _ & Hsize & Hr0 & Hc0).
  split; [exact HR|]. split; [exact HC|].
  unfold unroll in Hu. apply Z.leb_le in Hu. rewrite Hsize in Hu.
  assert (0 <= size dst) by (unfold size; nia). nia.
Qed.





Lemma matrix_unroller_writes dst other :
  well_shaped dst = true ->
  RowsAtCompileTime (traits dst) <> Dynamic -> ColsAtCompileTime (traits dst) <> Dynamic ->
  ~ (1 <= Dynamic <= size dst) ->
  ei_matrix_operator_equals_unroller (SizeAtCompileTime (traits dst)) dst other
  = Returns (write_all (reads other) (column_major_positions (rows dst) (cols dst)) dst).
Proof.
  intros Hw HR HC HD.
  destruct (known_size dst Hw HR HC) as (Hr & Hc & Hsize & Hr0 & Hc0).
  assert (0 <= size dst) as Hs0 by (unfold size; nia).
  unfold ei_matrix_operator_equals_unroller, instantiation_depth. rewrite Hsize.
  rewrite matrix_unroller_run_writes by (try done; lia).
  f_equal. apply write_all_same_positions. intros [i j].
  unfold size. rewrite elem_of_unrolled_positions_all by done.
  rewrite elem_of_column_major_positions. reflexivity.
Qed.

Lemma vector_unroller_writes dst other :
  well_shaped dst = true ->
  RowsAtCompileTime (traits dst) <> Dynamic -> ColsAtCompileTime (traits dst) <> Dynamic ->
  ~ (1 <= Dynamic <= size dst) ->
  ei_vector_operator_equals_unroller (SizeAtCompileTime (traits dst)) dst other
  = Returns (vector_loop dst other).
Proof.
  intros Hw HR HC HD.
  destruct (known_size dst Hw HR HC) as (Hr & Hc & Hsize & Hr0 & Hc0).
  assert (0 <= size dst) as Hs0 by (unfold size; nia).
  unfold ei_vector_operator_equals_unroller, instantiation_depth. rewrite Hsize.
  rewrite vector_unroller_run_writes by (try done; lia).
  rewrite vector_loop_writes. reflexivity.
Qed.

Lemma matrix_loop_writes dst other :
  matrix_loop dst other
  = write_all (reads other) (column_major_positions (rows dst) (cols dst)) dst.
Proof.
  unfold matrix_loop. destruct (column_major_traversal (traits dst)).
  - apply column_major_loop_writes.
  - rewrite row_major_loop_writes. apply write_all_same_positions. intros [i j].
    rewrite elem_of_row_major_positions, elem_of_column_major_positions. reflexivity.
Qed.

(** On a vector, the positions of the linear indices are the positions
    within the extents. *)
Lemma elem_of_vector_positions dst i j :
  Dynamic <> 1 ->
  well_shaped dst = true -> IsVectorAtCompileTime (traits dst) = true ->
  0 <= i < rows dst -> 0 <= j < cols dst ->
  (i, j) ∈ index_position (traits dst) <$> seqZ 0 (size dst).
Proof.
  intros HD Hw Hv Hi Hj. apply well_shaped_spec in Hw as (HR & HC & _).
  unfold IsVectorAtCompileTime in Hv. apply orb_true_iff in Hv.
  rewrite !Z.eqb_eq in Hv.
  apply list_elem_of_fmap. unfold index_position, size.
  destruct (Z.eqb_spec (RowsAtCompileTime (traits dst)) 1) as [E1|E1].
  - assert (rows dst = 1) as Hr1 by lia. rewrite Hr1 in *.
    exists j. split; [f_equal; lia | apply elem_of_seqZ; lia].
  - assert (cols dst = 1) as Hc1 by lia. rewrite Hc1 in *.
    exists i. split; [f_equal; lia | apply elem_of_seqZ; lia].
Qed.
End AssignmentFacts.

Section AssignmentTheorems.
Context `{Constants} {Scalar : Type}.
Implicit Types (dst d : Matrix Scalar) (src other : Expr Scalar).



Lemma stored_matrix_written dst other i j :
  stored (write_all (reads other) (column_major_positions (rows dst) (cols dst)) dst) i j
  = if decide (0 <= i < rows dst /\ 0 <= j < cols dst)
    then Some (coeff other i j) else stored dst i j.
Proof.
  rewrite stored_write_all.
  destruct (decide ((i, j) ∈ column_major_positions (rows dst) (cols dst))) as [Hin|Hin];
    rewrite elem_of_column_major_positions in Hin.
  - rewrite decide_True by exact Hin. reflexivity.
  - rewrite decide_False by exact Hin. reflexivity.
Qed.

(** What [lazyAssign] does once its assertion holds, on each path. *)
Lemma lazyAssign_vector_path dst other :
  1 < Dynamic -> EIGEN_UNROLLING_LIMIT < Dynamic -> 1 <= CoeffReadCost (traits other) ->
  well_shaped dst = true ->
  IsVectorAtCompileTime (traits dst) && IsVectorAtCompileTime (traits other) = true ->
  size dst = size other ->
  lazyAssign dst other = Returns (vector_loop dst other).
Proof.
  intros H1 HL Hcost Hw Hv Hsize. unfold lazyAssign. rewrite Hv, <- Hsize, Z.eqb_refl.
  cbn [andb ei_assert mbind outcome_bind obind].
  destruct (unroll dst other) eqn:Hu; [|reflexivity].
  destruct (unroll_size_below_sentinel dst other H1 HL Hcost Hw Hu) as (HR & HC & HD).
  apply vector_unroller_writes; assumption.
Qed.

Lemma lazyAssign_matrix_path dst other :
  1 < Dynamic -> EIGEN_UNROLLING_LIMIT < Dynamic -> 1 <= CoeffReadCost (traits other) ->
  well_shaped dst = true ->
  IsVectorAtCompileTime (traits dst) && IsVectorAtCompileTime (traits other) = false ->
  rows dst = rows other -> cols dst = cols other ->
  lazyAssign dst other
  = Returns (write_all (reads other) (column_major_positions (rows dst) (cols dst)) dst).
Proof.
  intros H1 HL Hcost Hw Hv Hrows Hcols. unfold lazyAssign.
  rewrite Hv, <- Hrows, <- Hcols, !Z.eqb_refl.
  cbn [andb ei_assert mbind outcome_bind obind].
  destruct (unroll dst other) eqn:Hu.
  - destruct (unroll_size_below_sentinel dst other H1 HL Hcost Hw Hu) as (HR & HC & HD).
    apply matrix_unroller_writes; assumption.
  - rewrite matrix_loop_writes. reflexivity.
Qed.




(** C6.  Take a type of known size whose instantiation chain stays below
    the sentinel (so every size up to the budget and past it, as long as it
    is below [Dynamic]), two destinations [d1], [d2] of that type and one
    source.  The unrolled matrix path on [d1] returns, and its result holds
    the same coefficients as the looped matrix path on [d2]; started from
    one destination the two results are equal.  The same holds for the
    unrolled and the looped vector path when the type is a vector. *)
Theorem unrolled_and_looped_paths_agree (d1 d2 : Matrix Scalar) other :
  traits d1 = traits d2 ->
  well_shaped d1 = true -> well_shaped d2 = true ->
  RowsAtCompileTime (traits d1) <> Dynamic -> ColsAtCompileTime (traits d1) <> Dynamic ->
  ~ (1 <= Dynamic <= size d1) ->
  (exists u,
      ei_matrix_operator_equals_unroller (SizeAtCompileTime (traits d1)) d1 other = Returns u
      /\ same_contents u (matrix_loop d2 other)
      /\ (d1 = d2 -> u = matrix_loop d2 other))
  /\ (IsVectorAtCompileTime (traits d1) = true ->
      exists u,
        ei_vector_operator_equals_unroller (SizeAtCompileTime (traits d1)) d1 other = Returns u
        /\ same_contents u (vector_loop d2 other)
        /\ (d1 = d2 -> u = vector_loop d2 other)).
Proof.
  intros Ht Hw1 Hw2 HR HC HD.
  destruct (known_size d1 Hw1 HR HC) as (Hr1 & Hc1 & _).
  assert (RowsAtCompileTime (traits d2) <> Dynamic) as HR2 by (rewrite <- Ht; exact HR).
  assert (ColsAtCompileTime (traits d2) <> Dynamic) as HC2 by (rewrite <- Ht; exact HC).
  destruct (known_size d2 Hw2 HR2 HC2) as (Hr2 & Hc2 & _).
  assert (rows d1 = rows d2) as Hrows by (rewrite <- Hr1, <- Hr2, Ht; reflexivity).
  assert (cols d1 = cols d2) as Hcols by (rewrite <- Hc1, <- Hc2, Ht; reflexivity).
  split.
  - eexists. split; [apply matrix_unroller_writes; assumption|].
    rewrite matrix_loop_writes. split.
    + destruct (write_all_shape (reads other) (column_major_positions (rows d1) (cols d1)) d1)
        as (_ & Hr & Hc).
      destruct (write_all_shape (reads other) (column_major_positions (rows d2) (cols d2)) d2)
        as (_ & Hr' & Hc').
      unfold same_contents. split; [|split].
      * unfold rows in *; cbn in *. congruence.
      * unfold cols in *; cbn in *. congruence.
      * intros i j Hi Hj. rewrite !stored_matrix_written.
        replace (rows (write_all _ _ d1)) with (rows d1) in Hi by (symmetry; exact Hr).
        replace (cols (write_all _ _ d1)) with (cols d1) in Hj by (symmetry; exact Hc).
        rewrite !decide_True by (rewrite <- ?Hrows, <- ?Hcols; done). reflexivity.
    + intros ->. reflexivity.
  - intros Hv. eexists. split; [apply vector_unroller_writes; assumption|].
    split; [|intros ->; reflexivity].
    rewrite !vector_loop_writes.
    destruct (write_all_shape (reads_at other) (index_position (traits d1) <$> seqZ 0 (size d1)) d1)
      as (_ & Hr & Hc).
    destruct (write_all_shape (reads_at other) (index_position (traits d2) <$> seqZ 0 (size d2)) d2)
      as (_ & Hr' & Hc').
    unfold same_contents. split; [|split].
    * unfold rows in *; cbn in *. congruence.
    * unfold cols in *; cbn in *. congruence.
    * intros i j Hi Hj. rewrite !stored_write_all.
      replace (rows (write_all _ _ d1)) with (rows d1) in Hi by (symmetry; exact Hr).
      replace (cols (write_all _ _ d1)) with (cols d1) in Hj by (symmetry; exact Hc).
      assert (Dynamic <> 1) as HD1.
      { intros E. unfold IsVectorAtCompileTime in Hv.
        apply orb_true_iff in Hv. rewrite !Z.eqb_eq in Hv. lia. }
      rewrite !decide_True; [reflexivity| |].
      -- apply elem_of_vector_positions; try assumption; [rewrite <- Ht; exact Hv | lia | lia].
      -- apply elem_of_vector_positions; assumption.
Qed.


End AssignmentTheorems.

(** ** Shape traits *)

Section ShapeTheorems.
Context `{Constants}.

(** C9.  [size()] is [rows() * cols()] and [isVector()] is
    [rows() == 1 || cols() == 1]; [SizeAtCompileTime] is the sentinel as
    soon as one extent is the sentinel, and the product of the two extents
    otherwise. *)
Theorem shape_invariants {Derived : Type} `{!MatrixBase Derived} (m : Derived) :
  size m = rows m * cols m
  /\ isVector m = (rows m =? 1) || (cols m =? 1)
  /\ (isVector m = true <-> rows m = 1 \/ cols m = 1)
  /\ (RowsAtCompileTime (traits m) = Dynamic \/ ColsAtCompileTime (traits m) = Dynamic ->
      SizeAtCompileTime (traits m) = Dynamic)
  /\ (RowsAtCompileTime (traits m) <> Dynamic -> ColsAtCompileTime (traits m) <> Dynamic ->
      SizeAtCompileTime (traits m)
      = RowsAtCompileTime (traits m) * ColsAtCompileTime (traits m)).
Proof.
  split; [reflexivity|]. split; [reflexivity|].
  split.
  { unfold isVector. rewrite orb_true_iff, !Z.eqb_eq. reflexivity. }
  unfold SizeAtCompileTime. split.
  - intros [E|E]; rewrite E, Z.eqb_refl; [reflexivity|].
    rewrite orb_true_r. reflexivity.
  - intros HR HC. apply Z.eqb_neq in HR, HC. rewrite HR, HC. reflexivity.
Qed.
End ShapeTheorems.

(** *** The assignment engine on fixed-size integer matrices *)



(** [unrolled_and_looped_paths_agree] on two 2 x 2 destinations that start
    with different contents. *)
Lemma unrolled_and_looped_paths_agree_witness :
  (traits square_2 = traits other_square_2
   /\ well_shaped square_2 = true /\ well_shaped other_square_2 = true
   /\ RowsAtCompileTime (traits square_2) <> Dynamic
   /\ ColsAtCompileTime (traits square_2) <> Dynamic
   /\ ~ (1 <= Dynamic <= size square_2))
  /\ exists u,
       ei_matrix_operator_equals_unroller (SizeAtCompileTime (traits square_2)) square_2 table_2
       = Returns u
       /\ same_contents u (matrix_loop other_square_2 table_2).
Proof.
  assert (RowsAtCompileTime (traits square_2) <> Dynamic) as HR by discriminate.
  assert (ColsAtCompileTime (traits square_2) <> Dynamic) as HC by discriminate.
  assert (~ (1 <= Dynamic <= size square_2)) as HD
    by (change (~ (1 <= 10000 <= 4)); lia).
  assert (traits square_2 = traits other_square_2) as Ht by reflexivity.
  assert (well_shaped square_2 = true) as Hw1 by reflexivity.
  assert (well_shaped other_square_2 = true) as Hw2 by reflexivity.
  split; [auto 10|].
  destruct (unrolled_and_looped_paths_agree square_2 other_square_2 table_2
              Ht Hw1 Hw2 HR HC HD) as [(u & Hu & Hsame & _) _].
  exists u. split; [exact Hu | exact Hsame].
Defined.


(** ** The conjugate gradient solver *)

Section SolverFacts.
Context `{LinearAlgebra}.

Lemma cg_i_iter mat precond k st :
  cg_i (Nat.iter k (cg_body mat precond) st) = cg_i st + Z.of_nat k.
Proof.
  induction k as [|k IH]; [simpl; lia|].
  rewrite Nat.iter_succ. unfold cg_body at 1; cbn [cg_i]. rewrite IH. lia.
Qed.

(** With fuel for the iterations [i] still has below [maxIters], the loop
    ends, after some number [k] of iterations: the test held before each of
    them and fails after the last. *)
Lemma cg_while_ends mat precond maxIters tol absInit fuel : forall st,
  (Z.to_nat (maxIters - cg_i st) <= fuel)%nat ->
  exists k : nat,
    while_loop fuel (cg_continue maxIters tol absInit) (cg_body mat precond) st
    = Some (Nat.iter k (cg_body mat precond) st)
    /\ (forall j, (j < k)%nat ->
          cg_continue maxIters tol absInit (Nat.iter j (cg_body mat precond) st) = true)
    /\ cg_continue maxIters tol absInit (Nat.iter k (cg_body mat precond) st) = false
    /\ (k <= Z.to_nat (maxIters - cg_i st))%nat.
Proof.
  induction fuel as [|fuel IH]; intros st Hfuel.
  - exists 0%nat. change (Nat.iter 0 (cg_body mat precond) st) with st. cbn [while_loop].
    destruct (cg_continue maxIters tol absInit st) eqn:Hc.
    + apply andb_true_iff in Hc as [Hi _]. apply Z.ltb_lt in Hi. lia.
    + repeat split; [lia | lia].
  - cbn [while_loop].
    destruct (cg_continue maxIters tol absInit st) eqn:Hc.
    + pose proof Hc as Hc'. apply andb_true_iff in Hc' as [Hi _]. apply Z.ltb_lt in Hi.
      destruct (IH (cg_body mat precond st)) as (k & Hk & Hbefore & Hafter & Hle).
      { unfold cg_body; cbn [cg_i]. lia. }
      exists (S k). rewrite Nat.iter_succ_r. repeat split.
      * exact Hk.
      * intros [|j] Hj; [exact Hc|]. rewrite Nat.iter_succ_r. apply Hbefore. lia.
      * exact Hafter.
      * unfold cg_body in Hle; cbn [cg_i] in Hle. lia.
    + exists 0%nat. change (Nat.iter 0 (cg_body mat precond) st) with st.
      repeat split; [lia | exact Hc | lia].
Qed.

(** [absNew] is the inner product of the residual with the preconditioned
    residual, at the start and after every iteration. *)
Lemma cg_absNew_preconditioned mat rhs x precond k :
  let st := Nat.iter k (cg_body mat precond) (cg_start mat rhs x precond) in
  cg_absNew st = real (dot (cg_residual st) (precond_solve precond (cg_residual st))).
Proof. destruct k; reflexivity. Qed.

(** The run of [conjugate_gradient] as a number of iterations of its body. *)
Lemma conjugate_gradient_run mat rhs x precond maxIters tol :
  let start := cg_start mat rhs x precond in
  let absInit := cg_absNew start in
  exists k : nat,
    let final := Nat.iter k (cg_body mat precond) start in
    conjugate_gradient mat rhs x precond maxIters tol
    = Some (cg_x final, Z.of_nat k, rsqrt (rabs (rdiv (cg_absNew final) absInit)))
    /\ (forall j, (j < k)%nat ->
          cg_continue maxIters tol absInit (Nat.iter j (cg_body mat precond) start) = true)
    /\ cg_continue maxIters tol absInit final = false
    /\ Z.of_nat k <= Z.max 0 maxIters.
Proof.
  intros start absInit.
  destruct (cg_while_ends mat precond maxIters tol absInit (Z.to_nat maxIters) start)
    as (k & Hk & Hbefore & Hafter & Hle).
  { unfold start, cg_start; cbn [cg_i]. lia. }
  exists k. cbn zeta. unfold conjugate_gradient. cbn zeta.
  fold start. fold absInit. rewrite Hk.
  rewrite cg_i_iter. unfold start at 2, cg_start; cbn [cg_i].
  repeat split; [exact Hbefore | exact Hafter |].
  unfold start, cg_start in Hle; cbn [cg_i] in Hle. lia.
Qed.

Lemma conjugate_gradient_returns mat rhs x precond maxIters tol :
  exists x' iters err,
    conjugate_gradient mat rhs x precond maxIters tol = Some (x', iters, err).
Proof.
  destruct (conjugate_gradient_run mat rhs x precond maxIters tol) as (k & Hk & _).
  eauto.
Qed.

(** When the loop test fails at once, nothing is iterated and the reported
    error is the square root of [|absInit / absInit|]. *)
Lemma conjugate_gradient_no_iteration mat rhs x precond maxIters tol :
  let absInit := cg_absNew (cg_start mat rhs x precond) in
  cg_continue maxIters tol absInit (cg_start mat rhs x precond) = false ->
  conjugate_gradient mat rhs x precond maxIters tol
  = Some (x, 0, rsqrt (rabs (rdiv absInit absInit))).
Proof.
  intros absInit Hc. unfold conjugate_gradient; cbn zeta. fold absInit.
  destruct (Z.to_nat maxIters); cbn [while_loop]; rewrite Hc; reflexivity.
Qed.

Lemma _solve_returns s A b x :
  mp_matrix s = Some A ->
  exists x' iters err,
    conjugate_gradient (selfadjointView A) b x (m_preconditioner s)
      (m_maxIterations s) (m_tolerance s) = Some (x', iters, err)
    /\ _solve s b x
       = Returns
           ({| mp_matrix := mp_matrix s; m_preconditioner := m_preconditioner s;
               m_maxIterations := m_maxIterations s; m_tolerance := m_tolerance s;
               m_error := err; m_iterations := iters;
               m_info := if rle err (m_tolerance s) then Success else NoConvergence;
               m_isInitialized := true |}, x').
Proof.
  intros HA.
  destruct (conjugate_gradient_returns (selfadjointView A) b x (m_preconditioner s)
              (m_maxIterations s) (m_tolerance s)) as (x' & iters & err & Hcg).
  exists x', iters, err. split; [exact Hcg|].
  unfold _solve. rewrite HA, Hcg. reflexivity.
Qed.

Lemma _solve_ready s b x s' x' : _solve s b x = Returns (s', x') -> ready s'.
Proof.
  unfold _solve. destruct (mp_matrix s) as [A|] eqn:HA; [|discriminate].
  destruct (conjugate_gradient _ _ _ _ _ _) as [[[x1 iters] err]|]; [|discriminate].
  intros [= <- _]. split; cbn; [reflexivity | eauto].
Qed.

Lemma solver_step_ready s s' : solver_step s s' -> ready s -> ready s'.
Proof.
  intros Hstep Hs. destruct Hstep as [s s' Hsetup | s w dst s' x He].
  - destruct Hsetup as [s s' Hconf | s A].
    + destruct Hconf; exact Hs.
    + split; cbn; eauto.
  - exact (_solve_ready _ _ _ _ _ He).
Qed.

Lemma rtc_solver_step_ready s s' : rtc solver_step s s' -> ready s -> ready s'.
Proof. induction 1 as [|s1 s2 s3 Hstep _ IH]; eauto using solver_step_ready. Qed.

Lemma configure_step_uninitialized s s' :
  configure_step s s' -> m_isInitialized s = false -> m_isInitialized s' = false.
Proof. intros [] Hs; exact Hs. Qed.

Lemma never_computed_uninitialized s : never_computed s -> m_isInitialized s = false.
Proof.
  intros [raw Hrtc]. remember (ConjugateGradient_new raw) as s0 eqn:Hs0.
  assert (m_isInitialized s0 = false) as H0 by (subst s0; reflexivity).
  clear Hs0. induction Hrtc; eauto using configure_step_uninitialized.
Qed.

Lemma solve_when_ready s A b :
  m_isInitialized s = true -> mp_matrix s = Some A ->
  solve s b
  = if matrix_rows A =? vector_rows b then Returns {| sr_rhs := b |}
    else Fails DimensionMismatch.
Proof.
  intros Hi HA. unfold solve, solver_rows. rewrite Hi, HA. cbn.
  destruct (matrix_rows A =? vector_rows b); reflexivity.
Qed.

Lemma solveWithGuess_when_ready s A b x0 :
  m_isInitialized s = true -> mp_matrix s = Some A ->
  solveWithGuess s b x0
  = if matrix_rows A =? vector_rows b then Undefined
    else Fails DimensionMismatch.
Proof.
  intros Hi HA. unfold solveWithGuess, solver_rows. rewrite Hi, HA. cbn.
  destruct (matrix_rows A =? vector_rows b); reflexivity.
Qed.
End SolverFacts.

Section SolverTheorems.
Context `{LinearAlgebra}.

(** C2, as the code has it.  A run of [conjugate_gradient] is some number
    [k] of iterations of the loop body from the state computed before the
    loop: the test [i < maxIters && absNew > tol*tol*absInit] held before
    each of the [k] iterations and fails after the last; [absInit] is the
    [absNew] of the start state; at the start and after every iteration
    [absNew] is [real(residual . precond.solve(residual))]; the reported
    error is [sqrt(|absNew / absInit|)], the reported count is [k], and [k]
    is at most [max(0, maxIters)]. *)
Theorem conjugate_gradient_loop_and_report mat rhs x precond maxIters tol :
  exists k : nat,
    let start := cg_start mat rhs x precond in
    let absInit := cg_absNew start in
    let state := fun j => Nat.iter j (cg_body mat precond) start in
    conjugate_gradient mat rhs x precond maxIters tol
    = Some (cg_x (state k), Z.of_nat k,
            rsqrt (rabs (rdiv (cg_absNew (state k)) absInit)))
    /\ absInit = real (dot (minus rhs (view_times mat x))
                           (precond_solve precond (minus rhs (view_times mat x))))
    /\ (forall j, (j < k)%nat ->
          (cg_i (state j) <? maxIters)
          && rgt (cg_absNew (state j)) (rmul (rmul tol tol) absInit) = true)
    /\ (cg_i (state k) <? maxIters)
       && rgt (cg_absNew (state k)) (rmul (rmul tol tol) absInit) = false
    /\ (forall j, (j <= k)%nat ->
          cg_i (state j) = Z.of_nat j
          /\ cg_absNew (state j)
             = real (dot (cg_residual (state j))
                         (precond_solve precond (cg_residual (state j)))))
    /\ Z.of_nat k <= Z.max 0 maxIters.
Proof.
  destruct (conjugate_gradient_run mat rhs x precond maxIters tol)
    as (k & Hrun & Hbefore & Hafter & Hle).
  exists k. cbn zeta in *. split; [exact Hrun|].
  split; [reflexivity|].
  split; [exact Hbefore|].
  split; [exact Hafter|].
  split; [|exact Hle].
  intros j _. split.
  - rewrite cg_i_iter. reflexivity.
  - apply cg_absNew_preconditioned.
Qed.


(** C5 on the code.  On an initialised solver bound to [A] the guess-free
    form does what the claim says: [solve] only compares [A.rows()] with
    [b.rows()], fails with [DimensionMismatch] when they differ and returns
    the wrapper holding [b] otherwise, with no destination in sight and the
    solver unchanged; materialising the wrapper runs [_solve] on
    [dst.setZero()], and [_solve] is a run of [conjugate_gradient] from that
    vector with the solver's preconditioner, budget and tolerance, whose
    outputs it stores.  The guess form does not: [solveWithGuess] makes the
    same two checks and then has no wrapper to return, for no object of the
    wrapper's class can be built, so nothing sets [dst = x0] and runs in
    place. *)
Theorem solve_is_deferred s A b x0 :
  m_isInitialized s = true ->
  mp_matrix s = Some A ->
  solve s b
  = (if matrix_rows A =? vector_rows b then Returns {| sr_rhs := b |}
     else Fails DimensionMismatch)
  /\ (forall dst, evalTo {| sr_rhs := b |} s dst = _solve s b (setZero dst))
  /\ (forall x, exists x' iters err s',
        conjugate_gradient (selfadjointView A) b x (m_preconditioner s)
          (m_maxIterations s) (m_tolerance s) = Some (x', iters, err)
        /\ _solve s b x = Returns (s', x')
        /\ m_iterations s' = iters
        /\ m_error s' = err
        /\ m_info s' = (if rle err (m_tolerance s) then Success else NoConvergence)
        /\ mp_matrix s' = Some A)
  /\ solveWithGuess s b x0
     = (if matrix_rows A =? vector_rows b then Undefined else Fails DimensionMismatch)
  /\ (forall w, solveWithGuess s b x0 <> Returns w)
  /\ (conjugate_gradient_solve_retval_with_guess -> False).
Proof.
  intros Hi HA.
  split; [exact (solve_when_ready s A b Hi HA)|].
  split; [reflexivity|].
  split.
  { intros x. destruct (_solve_returns s A b x HA) as (x' & iters & err & Hcg & Hsolve).
    eexists x', iters, err, _. split; [exact Hcg|]. split; [exact Hsolve|].
    cbn. auto. }
  split; [exact (solveWithGuess_when_ready s A b x0 Hi HA)|].
  split; [intros w; destruct w | intros w; destruct w].
Qed.

(** C10.  [compute(A)] validates nothing: it always returns the solver with
    the matrix pointer rebound to [A], the preconditioner recomputed from
    [A] and the initialisation flag set, and leaves the other members alone.
    Whatever is called on the solver afterwards, [iterations], [error] and
    [info] return the stored members, [solve] returns a wrapper or fails
    with [DimensionMismatch], and neither [solve] nor [solveWithGuess] fails
    with [NotInitialized]. *)
Theorem compute_initializes s A s' :
  rtc solver_step (compute s A) s' ->
  compute s A
  = {| mp_matrix := Some A; m_preconditioner := precond_compute (m_preconditioner s) A;
       m_maxIterations := m_maxIterations s; m_tolerance := m_tolerance s;
       m_error := m_error s; m_iterations := m_iterations s; m_info := m_info s;
       m_isInitialized := true |}
  /\ iterations s' = Returns (m_iterations s')
  /\ error s' = Returns (m_error s')
  /\ info s' = Returns (m_info s')
  /\ (forall b, solve s' b <> Fails NotInitialized)
  /\ (forall b x0, solveWithGuess s' b x0 <> Fails NotInitialized)
  /\ exists A',
       mp_matrix s' = Some A'
       /\ (forall b, solve s' b
                     = if matrix_rows A' =? vector_rows b then Returns {| sr_rhs := b |}
                       else Fails DimensionMismatch)
       /\ (forall b x0, solveWithGuess s' b x0
                        = if matrix_rows A' =? vector_rows b
                          then Undefined
                          else Fails DimensionMismatch).
Proof.
  intros Hrtc.
  assert (ready s') as [Hi [A' HA']].
  { apply (rtc_solver_step_ready _ _ Hrtc). split; cbn; eauto. }
  split; [reflexivity|].
  unfold iterations, error, info. rewrite Hi.
  split; [reflexivity|]. split; [reflexivity|]. split; [reflexivity|].
  split; [|split].
  - intros b. rewrite (solve_when_ready s' A' b Hi HA').
    destruct (matrix_rows A' =? vector_rows b); discriminate.
  - intros b x0. rewrite (solveWithGuess_when_ready s' A' b x0 Hi HA').
    destruct (matrix_rows A' =? vector_rows b); discriminate.
  - exists A'. split; [exact HA'|]. split.
    + intros b. exact (solve_when_ready s' A' b Hi HA').
    + intros b x0. exact (solveWithGuess_when_ready s' A' b x0 Hi HA').
Qed.
End SolverTheorems.

(** *** The solver on double precision inputs *)

(** C1 on the code.  [b_6] is exactly [A_2 * x_3].  Running the solver in
    place from that guess, [x = x_3; _solve(b_6, x)], which is what
    materialising [solveWithGuess(b_6, x_3)] is written to do, iterates zero
    times and leaves the guess in place, but the reported error is
    [sqrt(|0/0|)], a not-a-number, and the reported status is
    [NoConvergence].  So does [solve] of a zero right-hand side, whose exact
    solution is the zero vector it starts from.  [solveWithGuess] itself has
    no wrapper to return. *)
Theorem exact_guess_reports_no_convergence :
  view_times (selfadjointView A_2) x_3 = b_6
  /\ (exists s' x,
        _solve computed_solver b_6 x_3 = Returns (s', x)
        /\ x = x_3
        /\ iterations s' = Returns 0
        /\ (exists e, error s' = Returns e
                      /\ PrimFloat.is_nan e = true /\ PrimFloat.eqb e 0 = false)
        /\ info s' = Returns NoConvergence)
  /\ (exists w s' x,
        solve computed_solver x_0 = Returns w
        /\ evalTo w computed_solver x_1 = Returns (s', x)
        /\ x = x_0
        /\ iterations s' = Returns 0
        /\ (exists e, error s' = Returns e /\ PrimFloat.is_nan e = true)
        /\ info s' = Returns NoConvergence)
  /\ solveWithGuess computed_solver b_6 x_3 = Undefined.
Proof.
  split; [reflexivity|]. split; [|split; [|reflexivity]].
  - eexists _, _. split; [vm_compute; reflexivity|].
    split; [reflexivity|]. split; [reflexivity|].
    split; [|reflexivity].
    eexists. split; [reflexivity|]. split; reflexivity.
  - eexists _, _, _. split; [reflexivity|]. split; [vm_compute; reflexivity|].
    split; [reflexivity|]. split; [reflexivity|].
    split; [|reflexivity].
    eexists. split; reflexivity.
Qed.

(** C2, the claim as stated fails: with a negative iteration budget the loop
    runs zero times, and zero is above the budget. *)
Lemma iterations_above_negative_budget :
  ~ (forall mat rhs x precond maxIters tol x' iters err,
       @conjugate_gradient double_dense mat rhs x precond maxIters tol = Some (x', iters, err) ->
       iters <= maxIters).
Proof.
  intros Hclaim.
  assert (conjugate_gradient (selfadjointView A_2) b_6 x_0 tt (-1) epsilon
          = Some (x_0, 0, 1%float)) as Hrun by (vm_compute; reflexivity).
  apply Hclaim in Hrun. lia.
Qed.



(** [solve_is_deferred] on the solver computed for [A_2]. *)
Lemma solve_is_deferred_witness :
  m_isInitialized computed_solver = true
  /\ mp_matrix computed_solver = Some A_2
  /\ solve computed_solver b_6 = Returns {| sr_rhs := b_6 |}
  /\ solve computed_solver b_6_1 = Fails DimensionMismatch
  /\ evalTo {| sr_rhs := b_6 |} computed_solver x_1 = _solve computed_solver b_6 x_0
  /\ solveWithGuess computed_solver b_6 x_3 = Undefined.
Proof.
  split; [reflexivity|]. split; [reflexivity|].
  destruct (solve_is_deferred computed_solver A_2 b_6 x_3 eq_refl eq_refl)
    as (Hsolve & HevalTo & _ & Hguess & _).
  destruct (solve_is_deferred computed_solver A_2 b_6_1 x_3 eq_refl eq_refl)
    as (Hmismatch & _).
  split; [exact Hsolve|]. split; [exact Hmismatch|].
  split; [exact (HevalTo x_1) | exact Hguess].
Defined.

(** [compute_initializes] on the solver computed for [A_2], after one
    materialised solve. *)
Lemma compute_initializes_witness :
  rtc solver_step (compute (ConjugateGradient_new raw_solver) A_2) solved_solver
  /\ iterations solved_solver = Returns 1
  /\ info solved_solver = Returns Success.
Proof.
  assert (rtc solver_step (compute (ConjugateGradient_new raw_solver) A_2) solved_solver) as Hrtc.
  { eapply rtc_l; [|apply rtc_refl].
    apply (step_evalTo _ {| sr_rhs := b_6 |} x_1 _ x_3). reflexivity. }
  split; [exact Hrtc|].
  destruct (compute_initializes _ _ _ Hrtc) as (_ & Hit & _ & Hinfo & _).
  split; [exact Hit | exact Hinfo].
Defined.

(** ** More on the assignment engine *)

Section MoreAssignment.
Context `{Constants} {Scalar : Type}.
Implicit Types (dst d : Matrix Scalar) (src other : Expr Scalar).

Lemma vector_positions_within dst i j :
  Dynamic <> 1 ->
  well_shaped dst = true -> IsVectorAtCompileTime (traits dst) = true ->
  (i, j) ∈ index_position (traits dst) <$> seqZ 0 (size dst) ->
  0 <= i < rows dst /\ 0 <= j < cols dst.
Proof.
  intros HD Hw Hv Hin. apply well_shaped_spec in Hw as (HR & HC & Hr0 & Hc0).
  unfold IsVectorAtCompileTime in Hv. apply orb_true_iff in Hv.
  rewrite !Z.eqb_eq in Hv.
  apply list_elem_of_fmap in Hin as (k & Heq & Hk). apply elem_of_seqZ in Hk.
  unfold index_position, size in *.
  destruct (Z.eqb_spec (RowsAtCompileTime (traits dst)) 1) as [E1|E1].
  - assert (rows dst = 1) as Hr1 by lia. rewrite Hr1 in *.
    inversion Heq; subst i j. lia.
  - assert (cols dst = 1) as Hc1 by lia. rewrite Hc1 in *.
    inversion Heq; subst i j. lia.
Qed.

(** What a returning [lazyAssign] has checked. *)
Lemma lazyAssign_returns_inv dst other dst' :
  lazyAssign dst other = Returns dst' ->
  (IsVectorAtCompileTime (traits dst) && IsVectorAtCompileTime (traits other) = true
   /\ size dst = size other)
  \/ (IsVectorAtCompileTime (traits dst) && IsVectorAtCompileTime (traits other) = false
      /\ rows dst = rows other /\ cols dst = cols other).
Proof.
  unfold lazyAssign.
  destruct (IsVectorAtCompileTime (traits dst) && IsVectorAtCompileTime (traits other)).
  - destruct (Z.eqb_spec (size dst) (size other)) as [E|E]; [auto|discriminate].
  - destruct (Z.eqb_spec (rows dst) (rows other)) as [Er|Er]; [|discriminate].
    destruct (Z.eqb_spec (cols dst) (cols other)) as [Ec|Ec]; [auto|discriminate].
Qed.

(** The value [lazyAssign] writes at a position of the destination. *)
Lemma lazyAssign_returns_written dst other dst' :
  1 < Dynamic -> EIGEN_UNROLLING_LIMIT < Dynamic -> 1 <= CoeffReadCost (traits other) ->
  well_shaped dst = true ->
  lazyAssign dst other = Returns dst' ->
  dst' = write_all
           (if IsVectorAtCompileTime (traits dst) && IsVectorAtCompileTime (traits other)
            then reads_at other else reads other)
           (column_major_positions (rows dst) (cols dst)) dst.
Proof.
  intros H1 HL Hcost Hw Hret.
  destruct (lazyAssign_returns_inv dst other dst' Hret) as [[Hv Hsize]|(Hv & Hrows & Hcols)];
    rewrite Hv.
  - rewrite (lazyAssign_vector_path dst other H1 HL Hcost Hw Hv Hsize) in Hret.
    injection Hret as <-. rewrite vector_loop_writes.
    apply andb_true_iff in Hv as [Hvd _].
    apply write_all_same_positions. intros [i j].
    rewrite elem_of_column_major_positions. split.
    + apply vector_positions_within; [lia | exact Hw | exact Hvd].
    + intros [Hi Hj]. apply elem_of_vector_positions; [lia | exact Hw | exact Hvd | exact Hi | exact Hj].
  - rewrite (lazyAssign_matrix_path dst other H1 HL Hcost Hw Hv Hrows Hcols) in Hret.
    injection Hret as <-. reflexivity.
Qed.

Lemma write_all_overwrites (g1 g2 : Z * Z -> Scalar) (qs : list (Z * Z)) d :
  write_all g2 qs (write_all g1 qs d) = write_all g2 qs d.
Proof.
  destruct (write_all_shape g1 qs d) as (Ht1 & Hr1 & Hc1).
  destruct (write_all_shape g2 qs d) as (Ht2 & Hr2 & Hc2).
  destruct (write_all_shape g2 qs (write_all g1 qs d)) as (Ht3 & Hr3 & Hc3).
  apply Matrix_eq; [congruence..|].
  apply map_eq. intros [i j].
  pose proof (stored_write_all g2 qs (write_all g1 qs d) i j) as E1.
  pose proof (stored_write_all g2 qs d i j) as E2.
  pose proof (stored_write_all g1 qs d i j) as E3.
  unfold stored in E1, E2, E3. rewrite E1, E2.
  destruct (decide ((i, j) ∈ qs)) as [Hin|Hin]; [reflexivity | exact E3].
Qed.

Lemma well_shaped_same_shape d1 d2 :
  traits d1 = traits d2 -> rows d1 = rows d2 -> cols d1 = cols d2 ->
  well_shaped d1 = true -> well_shaped d2 = true.
Proof. unfold well_shaped. intros <- <- <-. auto. Qed.

(** X1.  A returning [lazyAssign] keeps the type and the extents of the
    destination and touches no position outside its extents (for a
    destination whose runtime extents agree with its type, a source that
    costs at least one per coefficient, [1 < Dynamic] and the budget below
    [Dynamic]). *)
Theorem lazyAssign_frame dst other dst' :
  1 < Dynamic -> EIGEN_UNROLLING_LIMIT < Dynamic -> 1 <= CoeffReadCost (traits other) ->
  well_shaped dst = true ->
  lazyAssign dst other = Returns dst' ->
  traits dst' = traits dst /\ rows dst' = rows dst /\ cols dst' = cols dst
  /\ forall i j, ~ (0 <= i < rows dst /\ 0 <= j < cols dst) ->
       stored dst' i j = stored dst i j.
Proof.
  intros H1 HL Hcost Hw Hret.
  rewrite (lazyAssign_returns_written dst other dst' H1 HL Hcost Hw Hret).
  split; [apply write_all_shape|]. split; [apply write_all_shape|].
  split; [apply write_all_shape|].
  intros i j Hout. rewrite stored_write_all. rewrite decide_False; [reflexivity|].
  rewrite elem_of_column_major_positions. exact Hout.
Qed.

(** X2.  For a destination whose runtime extents agree with its type, two
    sources that each cost at least one per coefficient, [1 < Dynamic] and
    the budget below [Dynamic]: a later assignment overwrites an earlier one
    completely.  Assigning [first] and then [second] leaves the destination
    that assigning [second] alone leaves.  In particular assigning the same
    source twice changes nothing the second time. *)
Theorem lazyAssign_overwrites dst first second d1 d2 :
  1 < Dynamic -> EIGEN_UNROLLING_LIMIT < Dynamic ->
  1 <= CoeffReadCost (traits first) -> 1 <= CoeffReadCost (traits second) ->
  well_shaped dst = true ->
  lazyAssign dst first = Returns d1 ->
  lazyAssign d1 second = Returns d2 ->
  lazyAssign dst second = Returns d2
  /\ (second = first -> d2 = d1).
Proof.
  intros H1 HL Hc1 Hc2 Hw Hret1 Hret2.
  pose proof (lazyAssign_returns_written dst first d1 H1 HL Hc1 Hw Hret1) as Hd1.
  assert (traits d1 = traits dst /\ rows d1 = rows dst /\ cols d1 = cols dst)
    as (Ht & Hr & Hc) by (rewrite Hd1; apply write_all_shape).
  assert (well_shaped d1 = true) as Hw1
    by (apply (well_shaped_same_shape dst d1); [symmetry; exact Ht | lia | lia | exact Hw]).
  pose proof (lazyAssign_returns_written d1 second d2 H1 HL Hc2 Hw1 Hret2) as Hd2.
  rewrite Ht, Hr, Hc in Hd2.
  assert (lazyAssign dst second = Returns d2) as Hret.
  { destruct (lazyAssign_returns_inv d1 second d2 Hret2)
      as [[Hv Hsize]|(Hv & Hrows & Hcols)].
    - rewrite Ht in Hv. unfold size in Hsize. rewrite Hr, Hc in Hsize.
      rewrite (lazyAssign_vector_path dst second H1 HL Hc2 Hw Hv Hsize).
      pose proof (lazyAssign_vector_path dst second H1 HL Hc2 Hw Hv Hsize) as Hdirect.
      pose proof (lazyAssign_returns_written dst second _ H1 HL Hc2 Hw Hdirect) as Hdd.
      rewrite Hdd, Hd2, Hd1. rewrite write_all_overwrites. reflexivity.
    - rewrite Ht in Hv. rewrite Hr in Hrows. rewrite Hc in Hcols.
      pose proof (lazyAssign_matrix_path dst second H1 HL Hc2 Hw Hv Hrows Hcols) as Hdirect.
      rewrite Hdirect. rewrite Hd2, Hd1, Hv. rewrite write_all_overwrites. reflexivity. }
  split; [exact Hret|].
  intros ->. rewrite Hret1 in Hret. injection Hret as ->. reflexivity.
Qed.

(** X3.  The vector path ignores orientation.  For a row-vector
    destination whose runtime extents agree with its type and a column-vector
    source of the same size that costs at least one per coefficient, with
    [1 < Dynamic] and the budget below [Dynamic]: the assignment returns,
    coefficient [k] of the column landing in column [k] of the row. *)
Theorem lazyAssign_row_from_column dst other :
  1 < Dynamic -> EIGEN_UNROLLING_LIMIT < Dynamic -> 1 <= CoeffReadCost (traits other) ->
  well_shaped dst = true ->
  RowsAtCompileTime (traits dst) = 1 ->
  RowsAtCompileTime (traits other) <> 1 -> ColsAtCompileTime (traits other) = 1 ->
  size dst = size other ->
  exists dst',
    lazyAssign dst other = Returns dst'
    /\ forall k, 0 <= k < size dst -> stored dst' 0 k = Some (coeff other k 0).
Proof.
  intros H1 HL Hcost Hw HRd HRo HCo Hsize.
  assert (IsVectorAtCompileTime (traits dst) && IsVectorAtCompileTime (traits other) = true)
    as Hv.
  { unfold IsVectorAtCompileTime. rewrite HRd, HCo. cbn. apply orb_true_r. }
  exists (vector_loop dst other).
  split; [apply lazyAssign_vector_path; assumption|].
  intros k Hk. rewrite vector_loop_writes, stored_write_all.
  assert (index_position (traits dst) k = (0, k)) as Hpos
    by (unfold index_position; rewrite HRd; reflexivity).
  rewrite decide_True.
  - unfold reads_at, coeff_at, index_position. cbn [fst snd].
    apply Z.eqb_neq in HRo. rewrite HRo. cbn [fst snd].
    replace (0 + k) with k by lia. reflexivity.
  - rewrite <- Hpos. apply list_elem_of_fmap_2, elem_of_seqZ. lia.
Qed.

(** X4.  The guard of the unrollers covers the count 0 only: from a
    negative count below the sentinel no specialisation is ever reached,
    whatever the depth of instantiation. *)
Theorem unroller_negative_count_never_ends n depth dst src :
  n < 0 -> n < Dynamic ->
  ei_matrix_operator_equals_unroller_run depth n dst src = Undefined
  /\ ei_vector_operator_equals_unroller_run depth n dst src = Undefined.
Proof.
  revert n. induction depth as [|depth IH]; intros n Hn HD; [split; reflexivity|].
  cbn [ei_matrix_operator_equals_unroller_run ei_vector_operator_equals_unroller_run].
  destruct (Z.eqb_spec n Dynamic) as [E|_]; [lia|].
  destruct (Z.eqb_spec n 0) as [E|_]; [lia|].
  destruct (Z.eqb_spec n 1) as [E|_]; [lia|].
  destruct (IH (n - 1) ltac:(lia) ltac:(lia)) as [-> ->]. split; reflexivity.
Qed.
End MoreAssignment.

(** ** More on the shape traits *)

Section MoreShape.
Context `{Constants}.

(** X5.  On an object whose runtime extents are the compile-time ones
    wherever those are known, and with a sentinel other than 1: a size
    computed at compile time from two known extents is the runtime [size()],
    a vector at compile time is a vector at runtime, and an object that is
    not a vector at runtime is not one at compile time. *)
Theorem compile_time_shape_is_runtime_shape {Derived : Type} `{!MatrixBase Derived}
    (m : Derived) :
  Dynamic <> 1 ->
  well_shaped m = true ->
  (RowsAtCompileTime (traits m) <> Dynamic -> ColsAtCompileTime (traits m) <> Dynamic ->
   SizeAtCompileTime (traits m) = size m)
  /\ (IsVectorAtCompileTime (traits m) = true -> isVector m = true)
  /\ (isVector m = false -> IsVectorAtCompileTime (traits m) = false).
Proof.
  intros HD Hw. pose proof Hw as Hw'.
  apply well_shaped_spec in Hw' as (HR & HC & _).
  assert (IsVectorAtCompileTime (traits m) = true -> isVector m = true) as Hvec.
  { unfold IsVectorAtCompileTime, isVector.
    rewrite !orb_true_iff, !Z.eqb_eq. intros [E|E]; [left | right]; lia. }
  split; [|split; [exact Hvec|]].
  - intros HRk HCk. destruct (known_size m Hw HRk HCk) as (_ & _ & Hsize & _).
    exact Hsize.
  - intros Hnot. destruct (IsVectorAtCompileTime (traits m)); [|reflexivity].
    rewrite Hvec in Hnot; [discriminate | reflexivity].
Qed.
End MoreShape.

(** ** findBiggestCoeff *)

Section BiggestCoeffFacts.
Context {Scalar RealScalar : Type}.
Variables (ei_abs : Scalar -> RealScalar) (zero : RealScalar)
          (greater : RealScalar -> RealScalar -> bool).
Implicit Types (m : Expr Scalar) (st : RealScalar * Z * Z).

Lemma nested_for_loop_positions {S : Type} (f : Z -> Z -> S -> S) r c (s : S) :
  for_loop c (fun j s => for_loop r (fun i s => f i j s) s) s
  = foldl (fun s q => f q.1 q.2 s) s (column_major_positions r c).
Proof.
  unfold for_loop, column_major_positions.
  generalize (seqZ 0 c) as js. intros js. revert s.
  induction js as [|j js IH]; intros s; [reflexivity|].
  cbn [foldl]. rewrite IH. clear IH.
  change ((j :: js) ≫= (fun j0 => (fun i => (i, j0)) <$> seqZ 0 r))
    with (((fun i => (i, j)) <$> seqZ 0 r)
            ++ (js ≫= (fun j0 => (fun i => (i, j0)) <$> seqZ 0 r))).
  rewrite foldl_app. f_equal.
  generalize (seqZ 0 r) as ks. intros ks. revert s.
  induction ks as [|k ks IHk]; intros s; [reflexivity|]. cbn. apply IHk.
Qed.

Lemma findBiggestCoeff_scan_positions m row col :
  findBiggestCoeff_scan ei_abs zero greater m row col
  = foldl (fun st q => biggest_step ei_abs greater m q.1 q.2 st) (zero, row, col)
      (column_major_positions (rows m) (cols m)).
Proof. unfold findBiggestCoeff_scan. apply nested_for_loop_positions. Qed.

(** A scan over positions none of which holds more than [biggest] changes
    nothing. *)
Lemma biggest_scan_unchanged m (qs : list (Z * Z)) b r c :
  (forall q, q ∈ qs -> greater (ei_abs (coeff m q.1 q.2)) b = false) ->
  foldl (fun st q => biggest_step ei_abs greater m q.1 q.2 st) (b, r, c) qs = (b, r, c).
Proof.
  induction qs as [|q qs IH]; intros Hle; [reflexivity|].
  cbn [foldl]. unfold biggest_step at 2. rewrite (Hle q) by apply list_elem_of_here.
  apply IH. intros q' Hq'. apply Hle. apply list_elem_of_further, Hq'.
Qed.

Section Ordered.
Hypothesis greater_irreflexive : forall a, greater a a = false.
Hypothesis greater_transitive :
  forall a b c, greater a b = true -> greater b c = true -> greater a c = true.

Lemma greater_asymmetric a b : greater a b = true -> greater b a = false.
Proof.
  intros Hab. destruct (greater b a) eqn:Hba; [|reflexivity].
  rewrite <- (greater_irreflexive a). symmetry. exact (greater_transitive a b a Hab Hba).
Qed.

Lemma not_greater_after a b c :
  greater a c = false -> greater b c = true -> greater a b = false.
Proof.
  intros Hac Hbc. destruct (greater a b) eqn:Hab; [|reflexivity].
  rewrite <- Hac. symmetry. exact (greater_transitive a b c Hab Hbc).
Qed.

(** After a scan, either nothing was above the initial [biggest] and the
    state is the initial one, or the state names a scanned position, holds
    its absolute value, which is above the initial [biggest], and no scanned
    position holds more. *)
Lemma biggest_scan_spec m (qs : list (Z * Z)) : forall b0 r0 c0 b r c,
  foldl (fun st q => biggest_step ei_abs greater m q.1 q.2 st) (b0, r0, c0) qs = (b, r, c) ->
  ((b, r, c) = (b0, r0, c0)
   /\ forall q, q ∈ qs -> greater (ei_abs (coeff m q.1 q.2)) b0 = false)
  \/ ((r, c) ∈ qs /\ b = ei_abs (coeff m r c) /\ greater b b0 = true
      /\ forall q, q ∈ qs -> greater (ei_abs (coeff m q.1 q.2)) b = false).
Proof.
  induction qs as [|q qs IH]; intros b0 r0 c0 b r c Hscan.
  - left. split; [symmetry; exact Hscan|]. intros q Hq. by apply elem_of_nil in Hq.
  - cbn [foldl] in Hscan. unfold biggest_step at 2 in Hscan.
    destruct (greater (ei_abs (coeff m q.1 q.2)) b0) eqn:Hq.
    + apply IH in Hscan as [[Heq Hrest]|(Hin & Hb & Hgt & Hrest)].
      * injection Heq as -> -> ->. right.
        split; [destruct q; apply list_elem_of_here|]. split; [reflexivity|].
        split; [exact Hq|].
        intros q' Hq'. apply elem_of_cons in Hq' as [->|Hq'];
          [apply greater_irreflexive | apply Hrest, Hq'].
      * right. split; [apply list_elem_of_further, Hin|]. split; [exact Hb|].
        split; [exact (greater_transitive _ _ _ Hgt Hq)|].
        intros q' Hq'. apply elem_of_cons in Hq' as [->|Hq'];
          [apply greater_asymmetric, Hgt | apply Hrest, Hq'].
    + apply IH in Hscan as [[Heq Hrest]|(Hin & Hb & Hgt & Hrest)].
      * left. split; [exact Heq|].
        intros q' Hq'. apply elem_of_cons in Hq' as [->|Hq']; [exact Hq | apply Hrest, Hq'].
      * right. split; [apply list_elem_of_further, Hin|]. split; [exact Hb|].
        split; [exact Hgt|].
        intros q' Hq'. apply elem_of_cons in Hq' as [->|Hq'];
          [exact (not_greater_after _ _ _ Hq Hgt) | apply Hrest, Hq'].
Qed.

(** X6.  When [>] is irreflexive and transitive and some coefficient has an
    absolute value above 0, [findBiggestCoeff] reports a position within the
    extents whose coefficient has an absolute value above 0 that the absolute
    value of no coefficient exceeds. *)
Theorem findBiggestCoeff_reports_biggest m row col i0 j0 :
  0 <= i0 < rows m -> 0 <= j0 < cols m ->
  greater (ei_abs (coeff m i0 j0)) zero = true ->
  exists r c,
    findBiggestCoeff ei_abs zero greater m row col = (r, c)
    /\ 0 <= r < rows m /\ 0 <= c < cols m
    /\ greater (ei_abs (coeff m r c)) zero = true
    /\ forall i j, 0 <= i < rows m -> 0 <= j < cols m ->
         greater (ei_abs (coeff m i j)) (ei_abs (coeff m r c)) = false.
Proof.
  intros Hi0 Hj0 Hpos. unfold findBiggestCoeff. rewrite findBiggestCoeff_scan_positions.
  destruct (foldl _ _ _) as [[b r] c] eqn:Hscan.
  apply biggest_scan_spec in Hscan as [[_ Hnone]|(Hin & Hb & Hgt & Hrest)].
  - specialize (Hnone (i0, j0)). cbn [fst snd] in Hnone.
    rewrite Hnone in Hpos; [discriminate|].
    apply elem_of_column_major_positions. auto.
  - exists r, c. apply elem_of_column_major_positions in Hin as [Hr Hc].
    split; [reflexivity|]. split; [exact Hr|]. split; [exact Hc|].
    rewrite <- Hb. split; [exact Hgt|].
    intros i j Hi Hj. apply (Hrest (i, j)). apply elem_of_column_major_positions. auto.
Qed.
End Ordered.

(** X7.  When no coefficient has an absolute value above 0 (a matrix of
    zeros, a matrix without coefficients), [findBiggestCoeff] writes neither
    [*row] nor [*col]: the caller finds there what it had put. *)
Theorem findBiggestCoeff_writes_nothing m row col :
  (forall i j, 0 <= i < rows m -> 0 <= j < cols m ->
     greater (ei_abs (coeff m i j)) zero = false) ->
  findBiggestCoeff ei_abs zero greater m row col = (row, col).
Proof.
  intros Hnone. unfold findBiggestCoeff. rewrite findBiggestCoeff_scan_positions.
  rewrite biggest_scan_unchanged; [reflexivity|].
  intros [i j] Hq. apply elem_of_column_major_positions in Hq as [Hi Hj].
  apply Hnone; assumption.
Qed.
End BiggestCoeffFacts.

(** ** More on the conjugate gradient solver *)

Section MoreSolver.
Context `{LinearAlgebra}.

(** A loop whose test holds before each of the first [k] iterations and
    fails after them ends there, given fuel for [k] iterations. *)
Lemma while_loop_first_exit {S : Type} (cond : S -> bool) (body : S -> S) (k : nat) :
  forall fuel s,
    (k <= fuel)%nat ->
    (forall j, (j < k)%nat -> cond (Nat.iter j body s) = true) ->
    cond (Nat.iter k body s) = false ->
    while_loop fuel cond body s = Some (Nat.iter k body s).
Proof.
  induction k as [|k IH]; intros fuel s Hfuel Hbefore Hafter.
  - change (Nat.iter 0 body s) with s in *.
    destruct fuel; cbn [while_loop]; rewrite Hafter; reflexivity.
  - destruct fuel as [|fuel]; [lia|]. cbn [while_loop].
    pose proof (Hbefore 0%nat ltac:(lia)) as Hfirst.
    change (Nat.iter 0 body s) with s in Hfirst. rewrite Hfirst. rewrite Nat.iter_succ_r.
    apply IH; [lia | | rewrite <- Nat.iter_succ_r; exact Hafter].
    intros j Hj. rewrite <- Nat.iter_succ_r. apply Hbefore. lia.
Qed.

Lemma conjugate_gradient_exit mat rhs x precond maxIters tol (k : nat) :
  let start := cg_start mat rhs x precond in
  let absInit := cg_absNew start in
  (Z.of_nat k <= Z.max 0 maxIters) ->
  (forall j, (j < k)%nat ->
     cg_continue maxIters tol absInit (Nat.iter j (cg_body mat precond) start) = true) ->
  cg_continue maxIters tol absInit (Nat.iter k (cg_body mat precond) start) = false ->
  conjugate_gradient mat rhs x precond maxIters tol
  = Some (cg_x (Nat.iter k (cg_body mat precond) start), Z.of_nat k,
          rsqrt (rabs (rdiv (cg_absNew (Nat.iter k (cg_body mat precond) start)) absInit))).
Proof.
  intros start absInit Hk Hbefore Hafter. unfold conjugate_gradient. cbn zeta.
  fold start. fold absInit.
  rewrite (while_loop_first_exit _ _ k) by (try assumption; lia).
  rewrite cg_i_iter. reflexivity.
Qed.

Lemma conjugate_gradient_inv mat rhs x precond maxIters tol x' iters err :
  conjugate_gradient mat rhs x precond maxIters tol = Some (x', iters, err) ->
  let start := cg_start mat rhs x precond in
  let absInit := cg_absNew start in
  exists k : nat,
    iters = Z.of_nat k
    /\ x' = cg_x (Nat.iter k (cg_body mat precond) start)
    /\ err = rsqrt (rabs (rdiv (cg_absNew (Nat.iter k (cg_body mat precond) start)) absInit))
    /\ (forall j, (j < k)%nat ->
          cg_continue maxIters tol absInit (Nat.iter j (cg_body mat precond) start) = true)
    /\ cg_continue maxIters tol absInit (Nat.iter k (cg_body mat precond) start) = false
    /\ Z.of_nat k <= Z.max 0 maxIters.
Proof.
  intros Hrun start absInit.
  destruct (conjugate_gradient_run mat rhs x precond maxIters tol)
    as (k & Hk & Hbefore & Hafter & Hle).
  cbn zeta in Hk. rewrite Hk in Hrun. injection Hrun as <- <- <-.
  exists k. auto 10.
Qed.

(** X8.  A run with a smaller budget is a prefix of a run with a larger
    one: if a run makes [iters] iterations, the run with any budget from 0 to
    [iters] makes exactly [budget] iterations and stops in the state the
    longer run was in after that many. *)
Theorem smaller_budget_is_a_prefix mat rhs x precond maxIters tol x' iters err budget :
  conjugate_gradient mat rhs x precond maxIters tol = Some (x', iters, err) ->
  0 <= budget <= iters ->
  let start := cg_start mat rhs x precond in
  let state := Nat.iter (Z.to_nat budget) (cg_body mat precond) start in
  conjugate_gradient mat rhs x precond budget tol
  = Some (cg_x state, budget,
          rsqrt (rabs (rdiv (cg_absNew state) (cg_absNew start)))).
Proof.
  intros Hrun Hbudget start state.
  destruct (conjugate_gradient_inv _ _ _ _ _ _ _ _ _ Hrun)
    as (k & -> & _ & _ & Hbefore & _ & _).
  rewrite (conjugate_gradient_exit mat rhs x precond budget tol (Z.to_nat budget)).
  - rewrite Z2Nat.id by lia. reflexivity.
  - lia.
  - intros j Hj. specialize (Hbefore j ltac:(lia)).
    unfold cg_continue in *. apply andb_true_iff in Hbefore as [_ Habs].
    rewrite Habs, cg_i_iter. cbn [cg_start cg_i].
    apply andb_true_iff. split; [apply Z.ltb_lt; lia | reflexivity].
  - unfold cg_continue. rewrite cg_i_iter. cbn [cg_start cg_i].
    replace (0 + Z.of_nat (Z.to_nat budget) <? budget) with false; [reflexivity|].
    symmetry. apply Z.ltb_ge. lia.
Qed.

(** X9.  Budget that was not used is irrelevant: a run that stopped before
    its budget was exhausted returns the same solution, iteration count and
    error under every larger budget, and under every smaller one that is
    still above its iteration count. *)
Theorem unused_budget_is_irrelevant mat rhs x precond maxIters tol x' iters err budget :
  conjugate_gradient mat rhs x precond maxIters tol = Some (x', iters, err) ->
  iters < maxIters ->
  iters < budget ->
  conjugate_gradient mat rhs x precond budget tol = Some (x', iters, err).
Proof.
  intros Hrun Hlt Hbudget.
  destruct (conjugate_gradient_inv _ _ _ _ _ _ _ _ _ Hrun)
    as (k & -> & -> & -> & Hbefore & Hafter & _).
  apply conjugate_gradient_exit.
  - lia.
  - intros j Hj. specialize (Hbefore j Hj).
    unfold cg_continue in *. apply andb_true_iff in Hbefore as [_ Habs].
    rewrite Habs, cg_i_iter. cbn [cg_start cg_i].
    apply andb_true_iff. split; [apply Z.ltb_lt; lia | reflexivity].
  - unfold cg_continue in *. rewrite cg_i_iter in *. cbn [cg_start cg_i] in *.
    apply andb_false_iff in Hafter as [Hi|Habs].
    + apply Z.ltb_ge in Hi. lia.
    + rewrite Habs. apply andb_false_r.
Qed.

(** X10.  The loop moves the solution and the residual by the same step
    along the same direction.  Where each update made so far was exact, that
    is [rhs - A (x + alpha p) = (rhs - A x) - alpha (A p)] for the [x], the
    [p] and the step [alpha] of that iteration, the residual the loop carries
    is the residual of the solution it carries, [rhs - A x], at the start and
    after the iterations. *)
Theorem residual_is_rhs_minus_A_x mat rhs x precond (k : nat) :
  (forall j, (j < k)%nat ->
     let st := Nat.iter j (cg_body mat precond) (cg_start mat rhs x precond) in
     let alpha := sdiv (of_real (cg_absNew st)) (dot (cg_p st) (view_times mat (cg_p st))) in
     minus rhs (view_times mat (plus (cg_x st) (scaled alpha (cg_p st))))
     = minus (minus rhs (view_times mat (cg_x st)))
             (scaled alpha (view_times mat (cg_p st)))) ->
  let state := Nat.iter k (cg_body mat precond) (cg_start mat rhs x precond) in
  cg_residual state = minus rhs (view_times mat (cg_x state)).
Proof.
  cbn zeta. induction k as [|k IH]; intros Hexact; [reflexivity|].
  rewrite Nat.iter_succ. unfold cg_body at 1 3. cbn [cg_residual cg_x].
  rewrite (Hexact k (Nat.lt_succ_diag_r k)), <- IH; [reflexivity|].
  intros j Hj. apply Hexact. lia.
Qed.

Lemma _solve_inv s b x s' x' :
  _solve s b x = Returns (s', x') ->
  exists A iters err,
    mp_matrix s = Some A
    /\ conjugate_gradient (selfadjointView A) b x (m_preconditioner s)
         (m_maxIterations s) (m_tolerance s) = Some (x', iters, err)
    /\ s' = {| mp_matrix := mp_matrix s; m_preconditioner := m_preconditioner s;
               m_maxIterations := m_maxIterations s; m_tolerance := m_tolerance s;
               m_error := err; m_iterations := iters;
               m_info := if rle err (m_tolerance s) then Success else NoConvergence;
               m_isInitialized := true |}.
Proof.
  unfold _solve. destruct (mp_matrix s) as [A|] eqn:HA; [|discriminate].
  destruct (conjugate_gradient _ _ _ _ _ _) as [[[x1 iters] err]|] eqn:Hcg; [|discriminate].
  intros [= <- <-]. exists A, iters, err. auto.
Qed.

Lemma materialised_solve s s' x :
  materialised s s' x -> exists b x0, _solve s b x0 = Returns (s', x).
Proof. intros (w & dst & Hw); eauto. Qed.

(** X11.  With a budget that is not positive a solve iterates zero times:
    a materialised [solve] returns the zero vector it starts from, [_solve]
    run in place leaves its vector as it was, and [iterations()] is 0. *)
Theorem no_budget_no_iteration s A b x dst :
  mp_matrix s = Some A ->
  maxIterations s <= 0 ->
  exists s1 s2,
    evalTo {| sr_rhs := b |} s dst = Returns (s1, setZero dst)
    /\ _solve s b x = Returns (s2, x)
    /\ iterations s1 = Returns 0 /\ iterations s2 = Returns 0.
Proof.
  intros HA Hbudget. unfold maxIterations in Hbudget.
  assert (forall x, exists s', _solve s b x = Returns (s', x) /\ iterations s' = Returns 0)
    as Hsolve.
  { intros v. unfold _solve. rewrite HA.
    rewrite conjugate_gradient_no_iteration.
    - eexists. split; reflexivity.
    - unfold cg_continue. cbn [cg_start cg_i].
      replace (0 <? m_maxIterations s) with false; [reflexivity|].
      symmetry. apply Z.ltb_ge. exact Hbudget. }
  destruct (Hsolve (setZero dst)) as (s1 & Hs1 & Hit1).
  destruct (Hsolve x) as (s2 & Hs2 & Hit2).
  exists s1, s2. auto.
Qed.

(** X12.  A solve reads the matrix, the preconditioner, the budget and the
    tolerance and nothing else of the solver: what earlier solves left in
    [m_error], [m_iterations], [m_info] and the initialisation flag has no
    influence on the outcome. *)
Theorem _solve_ignores_earlier_results s1 s2 b x :
  mp_matrix s1 = mp_matrix s2 ->
  preconditioner s1 = preconditioner s2 ->
  maxIterations s1 = maxIterations s2 ->
  tolerance s1 = tolerance s2 ->
  _solve s1 b x = _solve s2 b x.
Proof.
  unfold preconditioner, maxIterations, tolerance, _solve.
  intros -> -> -> ->. reflexivity.
Qed.

(** X13.  The configuration survives [compute] and solving: across any
    sequence of [compute] calls and materialised solves, started on any
    solver, a default-constructed one included, [tolerance()] and
    [maxIterations()] keep their values; started on a default-constructed
    solver they are still the defaults.  [compute] does not restore the
    defaults and a solve does not write the budget or the tolerance. *)
Theorem configuration_survives s s' :
  rtc compute_or_solve_step s s' ->
  (tolerance s' = tolerance s /\ maxIterations s' = maxIterations s)
  /\ (forall raw, s = ConjugateGradient_new raw ->
        tolerance s' = epsilon /\ maxIterations s' = 1000).
Proof.
  intros Hrtc.
  assert (tolerance s' = tolerance s /\ maxIterations s' = maxIterations s) as Hsame.
  { induction Hrtc as [s|s1 s2 s3 Hstep _ IH]; [split; reflexivity|].
    destruct IH as [-> ->].
    destruct Hstep as [s1 A|s1 s2 x Hm]; [split; reflexivity|].
    apply materialised_solve in Hm as (b & x0 & Hsolve).
    apply _solve_inv in Hsolve as (A' & iters & err & _ & _ & ->).
    split; reflexivity. }
  split; [exact Hsame|].
  intros raw ->. destruct Hsame as [-> ->]. split; reflexivity.
Qed.

(** X14.  Right after a materialised solve the three results are
    consistent: [iterations()] is between 0 and the larger of 0 and the
    budget, and [info()] is [Success] exactly when [error() <= tolerance()]. *)
Theorem results_after_solve s s' x :
  materialised s s' x ->
  exists iters err,
    iterations s' = Returns iters /\ error s' = Returns err
    /\ 0 <= iters <= Z.max 0 (maxIterations s')
    /\ info s' = Returns (if rle err (tolerance s') then Success else NoConvergence).
Proof.
  intros Hm. apply materialised_solve in Hm as (b & x0 & Hsolve).
  apply _solve_inv in Hsolve as (A' & iters & err & _ & Hcg & ->).
  apply conjugate_gradient_inv in Hcg as (k & -> & _ & _ & _ & _ & Hle).
  exists (Z.of_nat k), err.
  split; [reflexivity|]. split; [reflexivity|].
  split; [unfold maxIterations; cbn [m_maxIterations]; lia | reflexivity].
Qed.

(** X15.  The constructor from a matrix is the default constructor followed
    by [compute], as its documentation says: the same solver results, with
    the default budget of 1000 and the default tolerance, ready to solve. *)
Theorem constructor_from_matrix_is_new_then_compute raw A :
  ConjugateGradient_of raw A = compute (ConjugateGradient_new raw) A
  /\ maxIterations (ConjugateGradient_of raw A) = 1000
  /\ tolerance (ConjugateGradient_of raw A) = epsilon
  /\ mp_matrix (ConjugateGradient_of raw A) = Some A
  /\ forall b, solve (ConjugateGradient_of raw A) b
               = if matrix_rows A =? vector_rows b then Returns {| sr_rhs := b |}
                 else Fails DimensionMismatch.
Proof.
  split; [reflexivity|]. split; [reflexivity|]. split; [reflexivity|].
  split; [reflexivity|].
  intros b. apply solve_when_ready; reflexivity.
Qed.

Lemma never_computed_null s : never_computed s -> mp_matrix s = None.
Proof.
  intros [raw Hrtc]. remember (ConjugateGradient_new raw) as s0 eqn:Hs0.
  assert (mp_matrix s0 = None) as H0 by (subst s0; reflexivity).
  clear Hs0. induction Hrtc as [|s1 s2 s3 Hstep _ IH]; [exact H0|].
  apply IH. destruct Hstep; exact H0.
Qed.

(** X16.  [rows()], [cols()] and [_solve] carry no assertion: on a
    default-constructed solver on which [compute] was never called they
    dereference the null matrix pointer, where [iterations()] and [solve()]
    fail their assertion. *)
Theorem unguarded_calls_before_compute s b x :
  never_computed s ->
  solver_rows s = Undefined /\ solver_cols s = Undefined /\ _solve s b x = Undefined
  /\ iterations s = Fails NotInitialized /\ solve s b = Fails NotInitialized.
Proof.
  intros Hs. pose proof (never_computed_null s Hs) as Hnull.
  pose proof (never_computed_uninitialized s Hs) as Hflag.
  unfold solver_rows, solver_cols, _solve, iterations, solve. rewrite Hnull, Hflag.
  repeat split.
Qed.
End MoreSolver.

(** ** The further properties on concrete inputs *)

Lemma gtb_irreflexive (a : Z) : (a >? a) = false.
Proof. rewrite Z.gtb_ltb. apply Z.ltb_irrefl. Qed.

Lemma gtb_transitive (a b c : Z) : (a >? b) = true -> (b >? c) = true -> (a >? c) = true.
Proof. rewrite !Z.gtb_ltb, !Z.ltb_lt. lia. Qed.

(** [lazyAssign_frame] on a 2 x 2 destination that holds coefficients. *)
Lemma lazyAssign_frame_witness :
  (1 < Dynamic /\ EIGEN_UNROLLING_LIMIT < Dynamic /\ 1 <= CoeffReadCost (traits table_2)
   /\ well_shaped other_square_2 = true
   /\ lazyAssign other_square_2 table_2 = Returns (column_major_loop other_square_2 table_2))
  /\ rows (column_major_loop other_square_2 table_2) = rows other_square_2
  /\ stored (column_major_loop other_square_2 table_2) 2 0 = stored other_square_2 2 0.
Proof.
  assert (1 < Dynamic) as H1 by reflexivity.
  assert (EIGEN_UNROLLING_LIMIT < Dynamic) as HL by reflexivity.
  assert (1 <= CoeffReadCost (traits table_2)) as Hcost by (cbn; lia).
  assert (well_shaped other_square_2 = true) as Hw by reflexivity.
  assert (lazyAssign other_square_2 table_2
          = Returns (column_major_loop other_square_2 table_2)) as Hret
    by (vm_compute; reflexivity).
  split; [auto 10|].
  destruct (lazyAssign_frame other_square_2 table_2 _ H1 HL Hcost Hw Hret)
    as (_ & Hrows & _ & Hframe).
  split; [exact Hrows|]. apply Hframe.
  change (rows other_square_2) with 2. lia.
Defined.

(** [lazyAssign_overwrites] on a 2 x 2 destination and two sources. *)
Lemma lazyAssign_overwrites_witness :
  (1 < Dynamic /\ EIGEN_UNROLLING_LIMIT < Dynamic
   /\ 1 <= CoeffReadCost (traits table_2) /\ 1 <= CoeffReadCost (traits other_table_2)
   /\ well_shaped square_2 = true
   /\ lazyAssign square_2 table_2 = Returns (column_major_loop square_2 table_2)
   /\ lazyAssign (column_major_loop square_2 table_2) other_table_2
      = Returns (column_major_loop (column_major_loop square_2 table_2) other_table_2))
  /\ lazyAssign square_2 other_table_2
     = Returns (column_major_loop (column_major_loop square_2 table_2) other_table_2).
Proof.
  assert (1 < Dynamic) as H1 by reflexivity.
  assert (EIGEN_UNROLLING_LIMIT < Dynamic) as HL by reflexivity.
  assert (1 <= CoeffReadCost (traits table_2)) as Hc1 by (cbn; lia).
  assert (1 <= CoeffReadCost (traits other_table_2)) as Hc2 by (cbn; lia).
  assert (well_shaped square_2 = true) as Hw by reflexivity.
  assert (lazyAssign square_2 table_2 = Returns (column_major_loop square_2 table_2))
    as Hret1 by (vm_compute; reflexivity).
  assert (lazyAssign (column_major_loop square_2 table_2) other_table_2
          = Returns (column_major_loop (column_major_loop square_2 table_2) other_table_2))
    as Hret2 by (vm_compute; reflexivity).
  split; [auto 10|].
  exact (proj1 (lazyAssign_overwrites square_2 table_2 other_table_2 _ _
                  H1 HL Hc1 Hc2 Hw Hret1 Hret2)).
Defined.

(** [lazyAssign_row_from_column] on the row and the column of three
    coefficients. *)
Lemma lazyAssign_row_from_column_witness :
  (1 < Dynamic /\ EIGEN_UNROLLING_LIMIT < Dynamic /\ 1 <= CoeffReadCost (traits column_3)
   /\ well_shaped row_3 = true
   /\ RowsAtCompileTime (traits row_3) = 1
   /\ RowsAtCompileTime (traits column_3) <> 1 /\ ColsAtCompileTime (traits column_3) = 1
   /\ size row_3 = size column_3)
  /\ exists dst', lazyAssign row_3 column_3 = Returns dst' /\ stored dst' 0 2 = Some 12.
Proof.
  assert (1 < Dynamic) as H1 by reflexivity.
  assert (EIGEN_UNROLLING_LIMIT < Dynamic) as HL by reflexivity.
  assert (1 <= CoeffReadCost (traits column_3)) as Hcost by (cbn; lia).
  assert (well_shaped row_3 = true) as Hw by reflexivity.
  assert (RowsAtCompileTime (traits row_3) = 1) as HRd by reflexivity.
  assert (RowsAtCompileTime (traits column_3) <> 1) as HRo by discriminate.
  assert (ColsAtCompileTime (traits column_3) = 1) as HCo by reflexivity.
  assert (size row_3 = size column_3) as Hsize by reflexivity.
  split; [auto 10|].
  destruct (lazyAssign_row_from_column row_3 column_3 H1 HL Hcost Hw HRd HRo HCo Hsize)
    as (dst' & Hret & Hcoeff).
  exists dst'. split; [exact Hret|].
  change (size row_3) with 3 in Hcoeff. exact (Hcoeff 2 ltac:(lia)).
Defined.

(** [unroller_negative_count_never_ends] on the count -1. *)
Lemma unroller_negative_count_never_ends_witness :
  (-1 < 0 /\ -1 < Dynamic)
  /\ ei_matrix_operator_equals_unroller_run 5 (-1) square_2 table_2 = Undefined
  /\ ei_vector_operator_equals_unroller_run 5 (-1) square_2 table_2 = Undefined.
Proof.
  assert (-1 < 0) as Hn by lia.
  assert (-1 < Dynamic) as HD by reflexivity.
  split; [auto|].
  exact (unroller_negative_count_never_ends (-1) 5 square_2 table_2 Hn HD).
Defined.

(** [compile_time_shape_is_runtime_shape] on a 2 x 2 destination. *)
Lemma compile_time_shape_is_runtime_shape_witness :
  (Dynamic <> 1 /\ well_shaped square_2 = true)
  /\ size square_2 = SizeAtCompileTime (traits square_2).
Proof.
  assert (Dynamic <> 1) as HD by discriminate.
  assert (well_shaped square_2 = true) as Hw by reflexivity.
  split; [auto|].
  destruct (compile_time_shape_is_runtime_shape square_2 HD Hw) as (Hsize & _).
  symmetry. apply Hsize; discriminate.
Defined.

(** [findBiggestCoeff_reports_biggest] over the integers, on a matrix whose
    biggest coefficient in absolute value is negative. *)
Lemma findBiggestCoeff_reports_biggest_witness :
  (0 <= 1 < rows signed_table_2 /\ 0 <= 1 < cols signed_table_2
   /\ (Z.abs (coeff signed_table_2 1 1) >? 0) = true)
  /\ exists r c,
       findBiggestCoeff Z.abs 0 Z.gtb signed_table_2 7 7 = (r, c)
       /\ 0 <= r < rows signed_table_2 /\ 0 <= c < cols signed_table_2
       /\ (Z.abs (coeff signed_table_2 r c) >? 0) = true
       /\ forall i j, 0 <= i < rows signed_table_2 -> 0 <= j < cols signed_table_2 ->
            (Z.abs (coeff signed_table_2 i j) >? Z.abs (coeff signed_table_2 r c)) = false.
Proof.
  assert (0 <= 1 < rows signed_table_2) as Hi by (change (rows signed_table_2) with 2; lia).
  assert (0 <= 1 < cols signed_table_2) as Hj by (change (cols signed_table_2) with 2; lia).
  assert ((Z.abs (coeff signed_table_2 1 1) >? 0) = true) as Hpos by reflexivity.
  split; [auto|].
  exact (findBiggestCoeff_reports_biggest Z.abs 0 Z.gtb gtb_irreflexive gtb_transitive
           signed_table_2 7 7 1 1 Hi Hj Hpos).
Defined.

(** [findBiggestCoeff_writes_nothing] over the integers, on a matrix of
    zeros. *)
Lemma findBiggestCoeff_writes_nothing_witness :
  (forall i j, 0 <= i < rows zero_table_2 -> 0 <= j < cols zero_table_2 ->
     (Z.abs (coeff zero_table_2 i j) >? 0) = false)
  /\ findBiggestCoeff Z.abs 0 Z.gtb zero_table_2 7 8 = (7, 8).
Proof.
  assert (forall i j, 0 <= i < rows zero_table_2 -> 0 <= j < cols zero_table_2 ->
            (Z.abs (coeff zero_table_2 i j) >? 0) = false) as Hnone
    by (intros i j _ _; reflexivity).
  split; [exact Hnone|].
  exact (findBiggestCoeff_writes_nothing Z.abs 0 Z.gtb zero_table_2 7 8 Hnone).
Defined.

(** [smaller_budget_is_a_prefix] on the system [2 x = 6], solved in one
    iteration, cut to no iteration. *)
Lemma smaller_budget_is_a_prefix_witness :
  (conjugate_gradient (selfadjointView A_2) b_6 x_0 tt 1000 epsilon = Some (x_3, 1, 0%float)
   /\ 0 <= 0 <= 1)
  /\ conjugate_gradient (selfadjointView A_2) b_6 x_0 tt 0 epsilon = Some (x_0, 0, 1%float).
Proof.
  assert (conjugate_gradient (selfadjointView A_2) b_6 x_0 tt 1000 epsilon
          = Some (x_3, 1, 0%float)) as Hrun by (vm_compute; reflexivity).
  assert (0 <= 0 <= 1) as Hbudget by lia.
  split; [auto|].
  exact (smaller_budget_is_a_prefix _ _ _ _ _ _ _ _ _ 0 Hrun Hbudget).
Defined.

(** [unused_budget_is_irrelevant] on the same system, with a budget of 5. *)
Lemma unused_budget_is_irrelevant_witness :
  (conjugate_gradient (selfadjointView A_2) b_6 x_0 tt 1000 epsilon = Some (x_3, 1, 0%float)
   /\ 1 < 1000 /\ 1 < 5)
  /\ conjugate_gradient (selfadjointView A_2) b_6 x_0 tt 5 epsilon = Some (x_3, 1, 0%float).
Proof.
  assert (conjugate_gradient (selfadjointView A_2) b_6 x_0 tt 1000 epsilon
          = Some (x_3, 1, 0%float)) as Hrun by (vm_compute; reflexivity).
  assert (1 < 1000) as Hlt by lia.
  assert (1 < 5) as Hbudget by lia.
  split; [auto|].
  exact (unused_budget_is_irrelevant _ _ _ _ _ _ _ _ _ 5 Hrun Hlt Hbudget).
Defined.

(** [residual_is_rhs_minus_A_x] on the system [2 x = 6] in double
    precision: one iteration from 0 moves the solution to 3 and the residual
    from 6 to 0. *)
Lemma residual_is_rhs_minus_A_x_witness :
  (cg_x (cg_start (selfadjointView A_2) b_6 x_0 tt) = x_0
   /\ cg_residual (cg_start (selfadjointView A_2) b_6 x_0 tt) = b_6
   /\ cg_x (Nat.iter 1 (cg_body (selfadjointView A_2) tt)
              (cg_start (selfadjointView A_2) b_6 x_0 tt)) = x_3)
  /\ cg_residual (Nat.iter 1 (cg_body (selfadjointView A_2) tt)
                    (cg_start (selfadjointView A_2) b_6 x_0 tt))
     = minus b_6 (view_times (selfadjointView A_2)
                    (cg_x (Nat.iter 1 (cg_body (selfadjointView A_2) tt)
                             (cg_start (selfadjointView A_2) b_6 x_0 tt)))).
Proof.
  split; [repeat split; vm_compute; reflexivity|].
  apply (residual_is_rhs_minus_A_x (selfadjointView A_2) b_6 x_0 tt 1).
  intros j Hj. assert (j = 0%nat) as -> by lia. vm_compute. reflexivity.
Defined.

(** [no_budget_no_iteration] on the solver computed for [A_2], its budget
    set to 0. *)
Lemma no_budget_no_iteration_witness :
  (mp_matrix (setMaxIterations computed_solver 0) = Some A_2
   /\ maxIterations (setMaxIterations computed_solver 0) <= 0)
  /\ exists s1 s2,
       evalTo {| sr_rhs := b_6 |} (setMaxIterations computed_solver 0) x_1
       = Returns (s1, setZero x_1)
       /\ _solve (setMaxIterations computed_solver 0) b_6 x_3 = Returns (s2, x_3)
       /\ iterations s1 = Returns 0 /\ iterations s2 = Returns 0.
Proof.
  assert (mp_matrix (setMaxIterations computed_solver 0) = Some A_2) as HA by reflexivity.
  assert (maxIterations (setMaxIterations computed_solver 0) <= 0) as Hbudget
    by (cbn; lia).
  split; [auto|].
  exact (no_budget_no_iteration (setMaxIterations computed_solver 0) A_2 b_6 x_3 x_1
           HA Hbudget).
Defined.

(** [_solve_ignores_earlier_results] on the solver before and after a
    solve. *)
Lemma _solve_ignores_earlier_results_witness :
  (mp_matrix computed_solver = mp_matrix solved_solver
   /\ preconditioner computed_solver = preconditioner solved_solver
   /\ maxIterations computed_solver = maxIterations solved_solver
   /\ tolerance computed_solver = tolerance solved_solver)
  /\ _solve computed_solver b_6 x_0 = _solve solved_solver b_6 x_0.
Proof.
  assert (mp_matrix computed_solver = mp_matrix solved_solver) as H1 by reflexivity.
  assert (preconditioner computed_solver = preconditioner solved_solver) as H2 by reflexivity.
  assert (maxIterations computed_solver = maxIterations solved_solver) as H3 by reflexivity.
  assert (tolerance computed_solver = tolerance solved_solver) as H4 by reflexivity.
  split; [auto|].
  exact (_solve_ignores_earlier_results computed_solver solved_solver b_6 x_0 H1 H2 H3 H4).
Defined.

(** [configuration_survives] on a default-constructed solver given a budget
    of 5, through its first [compute] and a materialised [solve(b_6)]. *)
Lemma configuration_survives_witness :
  rtc compute_or_solve_step configured_solver configured_solved_solver
  /\ mp_matrix configured_solver = None
  /\ tolerance configured_solved_solver = tolerance configured_solver
  /\ maxIterations configured_solved_solver = maxIterations configured_solver
  /\ maxIterations configured_solver = 5.
Proof.
  assert (rtc compute_or_solve_step configured_solver configured_solved_solver) as Hrtc.
  { apply (rtc_l _ _ (compute configured_solver A_2)); [apply by_compute|].
    apply rtc_once, (by_solve _ _ x_3).
    exists {| sr_rhs := b_6 |}, x_1. vm_compute. reflexivity. }
  split; [exact Hrtc|]. split; [reflexivity|].
  destruct (configuration_survives configured_solver configured_solved_solver Hrtc)
    as [[Htol Hmax] _].
  split; [exact Htol|]. split; [exact Hmax | reflexivity].
Defined.

(** [results_after_solve] on a materialised [solve(b_6)]. *)
Lemma results_after_solve_witness :
  materialised computed_solver solved_solver x_3
  /\ exists iters err,
       iterations solved_solver = Returns iters /\ error solved_solver = Returns err
       /\ 0 <= iters <= Z.max 0 (maxIterations solved_solver)
       /\ info solved_solver
          = Returns (if rle err (tolerance solved_solver) then Success else NoConvergence).
Proof.
  assert (materialised computed_solver solved_solver x_3) as Hm.
  { exists {| sr_rhs := b_6 |}, x_1. reflexivity. }
  split; [exact Hm|].
  exact (results_after_solve computed_solver solved_solver x_3 Hm).
Defined.

(** [unguarded_calls_before_compute] on a default-constructed solver. *)
Lemma unguarded_calls_before_compute_witness :
  never_computed (ConjugateGradient_new raw_solver)
  /\ solver_rows (ConjugateGradient_new raw_solver) = Undefined
  /\ _solve (ConjugateGradient_new raw_solver) b_6 x_0 = Undefined.
Proof.
  assert (never_computed (ConjugateGradient_new raw_solver)) as Hs
    by (exists raw_solver; apply rtc_refl).
  split; [exact Hs|].
  destruct (unguarded_calls_before_compute (ConjugateGradient_new raw_solver) b_6 x_0 Hs)
    as (Hrows & _ & Hsolve & _).
  split; [exact Hrows | exact Hsolve].
Defined.
